(** * ZAP baseline scan: a shallow embedding of [security/zap-baseline-scan.py]

    The orchestrator drives an external scan engine over HTTP.  The model
    keeps the Python code's shape: values that come back from the engine
    are JSON trees, Python dictionaries are insertion-ordered association
    lists, exceptions are an explicit result, and every interaction with
    the outside (HTTP requests, process spawn, file write, sleep, print)
    is an event of the run's trace. *)

From Stdlib Require Import String Ascii List ZArith Lia Bool Arith DecimalString.
Import ListNotations.

Local Open Scope string_scope.
Local Open Scope list_scope.
Local Open Scope Z_scope.

(** ** Python values *)

(** What [response.json()] can return.  A Python [dict] parsed from JSON is
    insertion ordered with distinct keys; it is kept as an association
    list whose first binding of a key is the live one.  Numbers are kept
    as integers: no operation of the scanner distinguishes a float from an
    int (a number is never a key of the string-keyed tables, has no [.get]
    and is not iterable). *)
#[warning="-register-all"]
Inductive json : Type :=
| JNull
| JBool (b : bool)
| JNum (n : Z)
| JStr (s : string)
| JArr (items : list json)
| JObj (fields : list (string * json)).

(** Exception classes derived from Python's [Exception] that the code can
    meet.  [ConnectionError] is [requests.ConnectionError] with its
    subclasses (a connect timeout is one); [Timeout] is a [requests]
    timeout that is not a connection error (a read timeout);
    [RequestException] stands for every other [requests] failure;
    [ValueError] is what [response.json()] raises on a body that is not
    JSON.  Asynchronous interrupts are outside the model. *)
Inductive exn : Type :=
| ConnectionError
| Timeout
| RequestException
| ValueError
| KeyError
| TypeError
| AttributeError
| OSError.

(** What a [raise] can carry: an [Exception], or the [SystemExit] of
    [sys.exit(code)], which [except Exception] does not catch. *)
Inductive raised : Type :=
| Error (e : exn)
| SystemExit (code : Z).

(** ** Dictionaries with string keys *)

Section Dict.
Context {V : Type}.

Fixpoint lookup (k : string) (d : list (string * V)) : option V :=
  match d with
  | [] => None
  | (k', v) :: d' => if String.eqb k k' then Some v else lookup k d'
  end.

(** [d[k] = f(d[k])] on an existing key; the table is unchanged when the
    key is absent (callers check with [lookup] first, as Python raises
    [KeyError] there). *)
Fixpoint update (k : string) (f : V -> V) (d : list (string * V))
  : list (string * V) :=
  match d with
  | [] => []
  | (k', v) :: d' =>
      if String.eqb k k' then (k', f v) :: d' else (k', v) :: update k f d'
  end.

Definition keys (d : list (string * V)) : list string := map fst d.
Definition values (d : list (string * V)) : list V := map snd d.
End Dict.

(** [sum(d.values())] *)
Definition sum_values (d : list (string * Z)) : Z :=
  fold_right Z.add 0 (values d).

(** The number of entries in all the lists of a table:
    [sum(len(v) for v in d.values())]. *)
Definition entries {A} (d : list (string * list A)) : Z :=
  fold_right Z.add 0 (map (fun l => Z.of_nat (length l)) (values d)).

(** ** Pure Python operations on JSON values *)

(** [obj.get(key, default)]: only a [dict] has [.get]. *)
Definition py_get (obj : json) (key : string) (default : json) : exn + json :=
  match obj with
  | JObj fields =>
      inr (match lookup key fields with Some v => v | None => default end)
  | _ => inl AttributeError
  end.

(** [obj[key]] with a string key. *)
Definition py_getitem (obj : json) (key : string) : exn + json :=
  match obj with
  | JObj fields =>
      match lookup key fields with Some v => inr v | None => inl KeyError end
  | _ => inl TypeError
  end.

(** The one-character strings of a string, as iteration yields them. *)
Fixpoint chars (s : string) : list json :=
  match s with
  | EmptyString => []
  | String c s' => JStr (String c EmptyString) :: chars s'
  end.

(** [for x in v]: what the loop iterates over. *)
Definition py_iter (v : json) : exn + list json :=
  match v with
  | JArr items => inr items
  | JObj fields => inr (map JStr (keys fields))
  | JStr s => inr (chars s)
  | _ => inl TypeError
  end.

(** [len(v)] *)
Definition py_len (v : json) : exn + Z :=
  match v with
  | JArr items => inr (Z.of_nat (length items))
  | JObj fields => inr (Z.of_nat (length fields))
  | JStr s => inr (Z.of_nat (String.length s))
  | _ => inl TypeError
  end.

(** ** The report (generate_report, lines 139-166) *)

(** One entry of [detailed_findings[risk]]. *)
Record Finding : Type := mkFinding {
  name : json;
  description : json;
  solution : json;
  url : json;
  param : json;
  evidence : json
}.

Record Report : Type := mkReport {
  scan_date : string;
  report_target_url : string;
  summary : list (string * Z);
  findings : list (string * list Finding);
  total_alerts : Z
}.

Definition risk_counts0 : list (string * Z) :=
  [("High", 0); ("Medium", 0); ("Low", 0); ("Informational", 0)].

Definition detailed_findings0 : list (string * list Finding) :=
  [("High", []); ("Medium", []); ("Low", []); ("Informational", [])].

(** [alert.get(key, default)] on an alert already known to be a dict. *)
Definition field (fields : list (string * json)) (key : string) (default : json)
  : json :=
  match lookup key fields with Some v => v | None => default end.

(** The dict appended to a bucket (lines 150-157). *)
Definition finding_of (fields : list (string * json)) : Finding :=
  {| name := field fields "alert" (JStr "Unknown");
     description := field fields "desc" (JStr "");
     solution := field fields "solution" (JStr "");
     url := field fields "url" (JStr "");
     param := field fields "param" (JStr "");
     evidence := field fields "evidence" (JStr "") |}.

(** [risk_counts[risk]] as a key lookup: the key a value selects, or the
    exception Python raises ([TypeError] for an unhashable list or dict,
    [KeyError] for anything that is not a key of the table). *)
Definition risk_key (risk : json) (risk_counts : list (string * Z))
  : exn + string :=
  match risk with
  | JStr s =>
      match lookup s risk_counts with
      | Some _ => inr s
      | None => inl KeyError
      end
  | JArr _ | JObj _ => inl TypeError
  | JNull | JBool _ | JNum _ => inl KeyError
  end.

(** The body of [for alert in alerts] (lines 148-157). *)
Definition categorize_alert (alert : json)
  (acc : list (string * Z) * list (string * list Finding))
  : exn + (list (string * Z) * list (string * list Finding)) :=
  let (risk_counts, detailed_findings) := acc in
  match alert with
  | JObj fields =>
      let risk := field fields "risk" (JStr "Informational") in
      match risk_key risk risk_counts with
      | inl e => inl e
      | inr k =>
          inr (update k (fun c => c + 1) risk_counts,
               update k (fun l => l ++ [finding_of fields]) detailed_findings)
      end
  | _ => inl AttributeError
  end.

(** The loop of lines 147-157: the first exception ends it. *)
Fixpoint categorize (alerts : list json)
  (acc : list (string * Z) * list (string * list Finding))
  : exn + (list (string * Z) * list (string * list Finding)) :=
  match alerts with
  | [] => inr acc
  | alert :: rest =>
      match categorize_alert alert acc with
      | inl e => inl e
      | inr acc' => categorize rest acc'
      end
  end.

(** Lines 141-166: the report dict, given the clock's [strftime] string. *)
Definition make_report (now target : string) (results : json) : exn + Report :=
  match py_get results "alerts" (JArr []) with
  | inl e => inl e
  | inr alerts =>
      match py_iter alerts with
      | inl e => inl e
      | inr items =>
          match categorize items (risk_counts0, detailed_findings0) with
          | inl e => inl e
          | inr (risk_counts, detailed_findings) =>
              match py_len alerts with
              | inl e => inl e
              | inr n =>
                  inr {| scan_date := now;
                         report_target_url := target;
                         summary := risk_counts;
                         findings := detailed_findings;
                         total_alerts := n |}
              end
          end
      end
  end.

(** ** Python strings *)

(** [str(n)] for an integer. *)
Definition str_Z (n : Z) : string := NilZero.string_of_int (Z.to_int n).

(** [s.replace(old, new)] for a non-empty [old]: the string is scanned
    left to right; where [old] starts, [new] is emitted and the scan
    resumes after the occurrence, so the occurrences replaced do not
    overlap.  [skip] counts the characters of the current occurrence
    still to be passed over. *)
Fixpoint replace_from (old new : string) (skip : nat) (s : string) : string :=
  match s with
  | EmptyString => EmptyString
  | String c s' =>
      match skip with
      | S k => replace_from old new k s'
      | O =>
          if prefix old s
          then (new ++ replace_from old new (String.length old - 1) s')%string
          else String c (replace_from old new 0 s')
      end
  end.

(** For an empty [old], Python puts [new] before every character and at
    the end. *)
Fixpoint follow_each (new s : string) : string :=
  match s with
  | EmptyString => EmptyString
  | String c s' => String c (new ++ follow_each new s')%string
  end.

(** [s.replace(old, new)] *)
Definition replace (old new s : string) : string :=
  match old with
  | EmptyString => (new ++ follow_each new s)%string
  | String _ _ => replace_from old new 0 s
  end.

(** [s[n:]] *)
Fixpoint drop (n : nat) (s : string) : string :=
  match n, s with
  | O, _ => s
  | S k, EmptyString => EmptyString
  | S k, String _ s' => drop k s'
  end.

(** [old] starts at index [i] of [s]: [s[i:].startswith(old)]. *)
Definition occurs_at (old s : string) (i : nat) : Prop :=
  prefix old (drop i s) = true.

(** [old in s] *)
Fixpoint contains (old s : string) : bool :=
  prefix old s ||
  match s with
  | EmptyString => false
  | String _ s' => contains old s'
  end.

(** [a or b] on an optional string: [None] and [''] are falsy. *)
Definition py_or (a : option string) (b : string) : string :=
  match a with
  | Some (String c s) => String c s
  | Some EmptyString | None => b
  end.

(** ** The outside world *)

Record Request : Type := mkRequest {
  req_url : string;
  req_params : list (string * json);
  req_timeout : option Z;
  req_stream : bool
}.

(** A response: its status code and [response.json()], [None] when the
    body is not JSON. *)
Record Response : Type := mkResponse {
  status_code : Z;
  body : option json
}.

Inductive http_outcome : Type :=
| Responds (r : Response)
| Fails (e : exn).

(** The pieces of a printed f-string. *)
Inductive piece : Type :=
| Lit (s : string)
| Fmt (v : json)
| FmtExn (e : exn).

Inductive event : Type :=
| EvMakedirs (path : string) (err : option exn)
| EvPopen (cmd : list string) (err : option exn)
| EvGet (req : Request) (out : http_outcome)
| EvSleep (seconds : Z)
| EvPrint (msg : list piece)
| EvWrite (path : string) (report : Report) (err : option exn)
| EvTerminate
| EvWait.

(** How the environment answers during one run: the outcome of the n-th
    [requests.get], whether the spawn, the directory creation and the
    report write fail, and what [time.strftime] returns. *)
Record World : Type := mkWorld {
  http : nat -> http_outcome;
  popen : option exn;
  makedirs : option exn;
  file_write : option exn;
  clock : string
}.

(** The mutable part of a run: how many requests were sent, and whether
    the instance has its [zap_process] attribute. *)
Record State : Type := mkState {
  requests_made : nat;
  has_zap_process : bool
}.

Definition initial_state : State :=
  {| requests_made := 0; has_zap_process := false |}.

(** ** The monad of the scanner's methods *)

(** A call returns, raises, or is still inside a [while True] loop when
    the loop budget of the model is used up. *)
Inductive result (A : Type) : Type :=
| Ret (a : A)
| Exc (r : raised)
| Diverge.
Arguments Ret {A} a.
Arguments Exc {A} r.
Arguments Diverge {A}.

Definition M (A : Type) : Type := World -> State -> result A * State * list event.

Definition ret {A} (a : A) : M A := fun _ s => (Ret a, s, []).

Definition bind {A B} (m : M A) (f : A -> M B) : M B :=
  fun w s =>
    match m w s with
    | (Ret a, s1, t1) => let '(r, s2, t2) := f a w s1 in (r, s2, t1 ++ t2)
    | (Exc e, s1, t1) => (Exc e, s1, t1)
    | (Diverge, s1, t1) => (Diverge, s1, t1)
    end.

Declare Scope monad_scope.
Delimit Scope monad_scope with monad.
Notation "x <- m ;; k" := (bind m (fun x => k))
  (at level 61, m at next level, right associativity) : monad_scope.
Notation "m ;; k" := (bind m (fun _ => k))
  (at level 61, right associativity) : monad_scope.
Local Open Scope monad_scope.

Definition raise {A} (r : raised) : M A := fun _ s => (Exc r, s, []).

Definition diverge {A} : M A := fun _ s => (Diverge, s, []).

Definition emit (ev : event) : M unit := fun _ s => (Ret tt, s, [ev]).

(** A pure computation that may raise. *)
Definition lift {A} (x : exn + A) : M A :=
  match x with
  | inl e => raise (Error e)
  | inr a => ret a
  end.

(** [try: body / except <classes>: handler]; [handler r] is [None] when
    no [except] clause matches [r]. *)
Definition try_except {A} (body : M A) (handler : raised -> option (M A)) : M A :=
  fun w s =>
    match body w s with
    | (Exc r, s1, t1) =>
        match handler r with
        | Some h => let '(r2, s2, t2) := h w s1 in (r2, s2, t1 ++ t2)
        | None => (Exc r, s1, t1)
        end
    | other => other
    end.

(** [try: body / finally: fin]: [fin] runs when [body] returns or raises;
    what [fin] raises replaces the outcome of [body]. *)
Definition try_finally {A} (body : M A) (fin : M unit) : M A :=
  fun w s =>
    match body w s with
    | (Diverge, s1, t1) => (Diverge, s1, t1)
    | (r, s1, t1) =>
        match fin w s1 with
        | (Ret _, s2, t2) => (r, s2, t1 ++ t2)
        | (Exc e, s2, t2) => (Exc e, s2, t1 ++ t2)
        | (Diverge, s2, t2) => (Diverge, s2, t1 ++ t2)
        end
    end.

(** *** Library calls *)

(** The state after one more request. *)
Definition sent (s : State) : State :=
  {| requests_made := S (requests_made s);
     has_zap_process := has_zap_process s |}.

(** [requests.get(url, params=..., ...)]: the environment decides. *)
Definition requests_get (req : Request) : M Response :=
  fun w s =>
    let out := http w (requests_made s) in
    match out with
    | Responds r => (Ret r, sent s, [EvGet req out])
    | Fails e => (Exc (Error e), sent s, [EvGet req out])
    end.

(** [response.json()] *)
Definition response_json (r : Response) : exn + json :=
  match body r with
  | Some j => inr j
  | None => inl ValueError
  end.

(** [response.json()[key]] *)
Definition response_item (r : Response) (key : string) : exn + json :=
  match response_json r with
  | inl e => inl e
  | inr j => py_getitem j key
  end.

Definition os_makedirs (path : string) : M unit :=
  fun w s =>
    match makedirs w with
    | None => (Ret tt, s, [EvMakedirs path None])
    | Some e => (Exc (Error e), s, [EvMakedirs path (Some e)])
    end.

(** [self.zap_process = subprocess.Popen(cmd, ...)] *)
Definition subprocess_Popen (cmd : list string) : M unit :=
  fun w s =>
    match popen w with
    | None =>
        (Ret tt,
         {| requests_made := requests_made s; has_zap_process := true |},
         [EvPopen cmd None])
    | Some e => (Exc (Error e), s, [EvPopen cmd (Some e)])
    end.

Definition time_sleep (seconds : Z) : M unit := emit (EvSleep seconds).

Definition print (msg : list piece) : M unit := emit (EvPrint msg).

Definition time_strftime : M string := fun w s => (Ret (clock w), s, []).

Definition sys_exit {A} (code : Z) : M A := raise (SystemExit code).

(** [with open(path, 'w') as f: json.dump(report, f, indent=2)] *)
Definition write_json (path : string) (report : Report) : M unit :=
  fun w s =>
    match file_write w with
    | None => (Ret tt, s, [EvWrite path report None])
    | Some e => (Exc (Error e), s, [EvWrite path report (Some e)])
    end.

(** ** The scanner (class ZapBaselineScan) *)

Record Scanner : Type := mkScanner {
  target_url : string;
  api_url : string;
  zap_port : Z;
  results_dir : string
}.

(** [f'http://localhost:{self.zap_port}'] *)
Definition base_url (self : Scanner) : string :=
  ("http://localhost:" ++ str_Z (zap_port self))%string.

Definition request (u : string) (params : list (string * json)) : Request :=
  {| req_url := u; req_params := params; req_timeout := None;
     req_stream := false |}.

(** The attributes [__init__] sets (lines 17-20). *)
Definition scanner_of (target : string) (api : option string) : Scanner :=
  {| target_url := target;
     api_url := py_or api (replace ":3000" ":8080" target);
     zap_port := 8080;
     results_dir := "security/results" |}.

(** [__init__] *)
Definition init (target : string) (api : option string) : M Scanner :=
  let self := scanner_of target api in
  os_makedirs (results_dir self) ;;
  ret self.

Definition version_url (self : Scanner) : string :=
  (base_url self ++ "/JSON/core/view/version/")%string.

(** The [for _ in range(max_attempts)] loop of [start_zap_daemon] and the
    [return False] after it; [attempts] is what is left of the range. *)
Fixpoint poll_version (self : Scanner) (attempts : nat) : M bool :=
  match attempts with
  | O => ret false
  | S k =>
      ready <- try_except
                 (response <- requests_get (request (version_url self) []) ;;
                  ret (status_code response =? 200))
                 (fun r =>
                    match r with
                    | Error ConnectionError => Some (time_sleep 2 ;; ret false)
                    | _ => None
                    end) ;;
      if ready then ret true else poll_version self k
  end.

Definition max_attempts : nat := 30.

(** The command line of the engine. *)
Definition cmd (self : Scanner) : list string :=
  ["zap.sh"; "-daemon"; "-port"; str_Z (zap_port self);
   "-config"; "api.disablekey=true"].

Definition start_zap_daemon (self : Scanner) : M bool :=
  try_except
    (subprocess_Popen (cmd self) ;;
     poll_version self max_attempts)
    (fun r =>
       match r with
       | Error e =>
           Some (print [Lit "Failed to start ZAP: "; FmtExn e] ;; ret false)
       | SystemExit _ => None
       end).

Definition health_url (self : Scanner) : string :=
  (target_url self ++ "/api/health")%string.

(** [requests.get(f'{self.target_url}/api/health', timeout=5)] *)
Definition health_request (self : Scanner) : Request :=
  {| req_url := health_url self; req_params := [];
     req_timeout := Some 5; req_stream := false |}.

Definition has_auth (self : Scanner) : M bool :=
  try_except
    (response <- requests_get (health_request self) ;;
     ret (status_code response =? 401))
    (fun _ => Some (ret false)).

Definition configure_authentication (self : Scanner) : M unit := ret tt.

Definition include_in_context_url (self : Scanner) : string :=
  (base_url self ++ "/JSON/core/action/includeInContext/")%string.

Definition configure_zap (self : Scanner) : M unit :=
  _ <- requests_get
         (request (include_in_context_url self)
            [("contextName", JStr "Default Context");
             ("regex", JStr (target_url self ++ ".*"))]) ;;
  auth <- has_auth self ;;
  if auth then configure_authentication self else ret tt.

(** [status == '100'] *)
Definition is_100 (status : json) : bool :=
  match status with
  | JStr s => String.eqb s "100"
  | _ => false
  end.

Definition spider_scan_url (self : Scanner) : string :=
  (base_url self ++ "/JSON/spider/action/scan/")%string.

Definition spider_status_url (self : Scanner) : string :=
  (base_url self ++ "/JSON/spider/view/status/")%string.

(** The [while True] loop of [run_spider_scan]; [fuel] bounds the number
    of polls the model follows. *)
Fixpoint spider_wait (self : Scanner) (scan_id : json) (fuel : nat) : M unit :=
  match fuel with
  | O => diverge
  | S k =>
      response <- requests_get
                    (request (spider_status_url self) [("scanId", scan_id)]) ;;
      status <- lift (response_item response "status") ;;
      if is_100 status then ret tt
      else time_sleep 2 ;; spider_wait self scan_id k
  end.

Definition run_spider_scan (self : Scanner) (fuel : nat) : M json :=
  response <- requests_get
                (request (spider_scan_url self)
                   [("url", JStr (target_url self));
                    ("maxChildren", JStr "100");
                    ("recurse", JStr "true")]) ;;
  scan_id <- lift (response_item response "scan") ;;
  spider_wait self scan_id fuel ;;
  ret scan_id.

Definition ascan_scan_url (self : Scanner) : string :=
  (base_url self ++ "/JSON/ascan/action/scan/")%string.

Definition ascan_status_url (self : Scanner) : string :=
  (base_url self ++ "/JSON/ascan/view/status/")%string.

(** The [while True] loop of [run_active_scan]. *)
Fixpoint ascan_wait (self : Scanner) (scan_id : json) (fuel : nat) : M unit :=
  match fuel with
  | O => diverge
  | S k =>
      response <- requests_get
                    (request (ascan_status_url self) [("scanId", scan_id)]) ;;
      status <- lift (response_item response "status") ;;
      if is_100 status then ret tt
      else
        time_sleep 5 ;;
        print [Lit "Active scan progress: "; Fmt status; Lit "%"] ;;
        ascan_wait self scan_id k
  end.

Definition run_active_scan (self : Scanner) (fuel : nat) : M json :=
  response <- requests_get
                (request (ascan_scan_url self)
                   [("url", JStr (target_url self));
                    ("recurse", JStr "true");
                    ("inScopeOnly", JStr "false")]) ;;
  scan_id <- lift (response_item response "scan") ;;
  ascan_wait self scan_id fuel ;;
  ret scan_id.

Definition alerts_url (self : Scanner) : string :=
  (base_url self ++ "/JSON/core/view/alerts/")%string.

Definition get_scan_results (self : Scanner) : M json :=
  alerts_response <- requests_get
                       (request (alerts_url self)
                          [("baseurl", JStr (target_url self))]) ;;
  lift (response_json alerts_response).

Definition report_path (self : Scanner) : string :=
  (results_dir self ++ "/zap-report.json")%string.

Definition html_report_url (self : Scanner) : string :=
  (base_url self ++ "/OTHER/core/other/htmlreport/")%string.

(** Lines 177-179: one line per risk level with a positive count, in the
    order of the table. *)
Fixpoint print_counts (risk_counts : list (string * Z)) : M unit :=
  match risk_counts with
  | [] => ret tt
  | (risk, count) :: rest =>
      (if 0 <? count
       then print [Lit "  "; Lit risk; Lit ": "; Fmt (JNum count)]
       else ret tt) ;;
      print_counts rest
  end.

(** The request of the engine-rendered HTML report (lines 172-174). *)
Definition html_request (self : Scanner) : Request :=
  {| req_url := html_report_url self;
     req_params := [("baseurl", JStr (target_url self))];
     req_timeout := None;
     req_stream := true |}.

Definition generate_report (self : Scanner) (results : json) : M unit :=
  now <- time_strftime ;;
  report <- lift (make_report now (target_url self) results) ;;
  write_json (report_path self) report ;;
  _ <- requests_get (html_request self) ;;
  print [Lit "Security scan completed. Found ";
         Fmt (JNum (total_alerts report)); Lit " total alerts:"] ;;
  print_counts (summary report).

Definition stop_zap (self : Scanner) : M unit :=
  fun w s =>
    if has_zap_process s
    then (Ret tt, s, [EvTerminate; EvWait])
    else (Ret tt, s, []).

(** The body of the [try] of [run_full_scan] (lines 196-207). *)
Definition scan_steps (self : Scanner) (fuel : nat) : M unit :=
  print [Lit "Configuring ZAP..."] ;;
  configure_zap self ;;
  print [Lit "Running spider scan..."] ;;
  _ <- run_spider_scan self fuel ;;
  print [Lit "Running active security scan..."] ;;
  _ <- run_active_scan self fuel ;;
  print [Lit "Generating report..."] ;;
  results <- get_scan_results self ;;
  generate_report self results.

(** The [finally] block of [run_full_scan] (lines 210-211). *)
Definition shutdown (self : Scanner) : M unit :=
  print [Lit "Stopping ZAP..."] ;; stop_zap self.

Definition run_full_scan (self : Scanner) (fuel : nat) : M unit :=
  print [Lit "Starting security scan for "; Lit (target_url self)] ;;
  started <- start_zap_daemon self ;;
  (if negb started
   then print [Lit "Failed to start ZAP daemon"] ;; sys_exit 1
   else ret tt) ;;
  try_finally
    (scan_steps self fuel)
    (shutdown self).

(** [main] on [sys.argv]. *)
Definition main (argv : list string) (fuel : nat) : M unit :=
  if (length argv <? 2)%nat
  then
    print [Lit "Usage: python zap-baseline-scan.py <target-url> [api-url]"] ;;
    sys_exit 1
  else
    let target := nth 1 argv "" in
    let api := if (2 <? length argv)%nat then Some (nth 2 argv "") else None in
    scanner <- init target api ;;
    run_full_scan scanner fuel.

(** The exit status of the interpreter: 0 when [main] returns, the code of
    [sys.exit], 1 for an uncaught exception; none while a loop still
    runs. *)
Definition exit_code (r : result unit) : option Z :=
  match r with
  | Ret _ => Some 0
  | Exc (SystemExit code) => Some code
  | Exc (Error _) => Some 1
  | Diverge => None
  end.

(** ** Observations on a run *)

Definition outcome {A} (x : result A * State * list event) : result A :=
  fst (fst x).
Definition final_state {A} (x : result A * State * list event) : State :=
  snd (fst x).
Definition trace {A} (x : result A * State * list event) : list event :=
  snd x.

(** How often the engine process was sent [terminate()] and waited for. *)
Definition count_terminate (t : list event) : nat :=
  length (filter (fun ev => match ev with EvTerminate => true | _ => false end) t).
Definition count_wait (t : list event) : nat :=
  length (filter (fun ev => match ev with EvWait => true | _ => false end) t).

(** Whether the engine process was spawned. *)
Definition spawned (t : list event) : bool :=
  existsb (fun ev => match ev with EvPopen _ None => true | _ => false end) t.

(** Seconds slept. *)
Fixpoint slept (t : list event) : Z :=
  match t with
  | [] => 0
  | EvSleep n :: t' => n + slept t'
  | _ :: t' => slept t'
  end.

(** Requests that met a connection error. *)
Fixpoint connection_errors (t : list event) : nat :=
  match t with
  | [] => 0
  | EvGet _ (Fails ConnectionError) :: t' => S (connection_errors t')
  | _ :: t' => connection_errors t'
  end.

(** The n-th request is answered with status 200. *)
Definition answers_200 (w : World) (n : nat) : Prop :=
  exists r, http w n = Responds r /\ status_code r = 200.

(** The n-th request makes the readiness loop try again: the connection is
    refused, or the answer has another status than 200. *)
Definition retries (w : World) (n : nat) : Prop :=
  http w n = Fails ConnectionError \/
  exists r, http w n = Responds r /\ status_code r <> 200.

(** The URLs requested, in order. *)
Fixpoint requested (t : list event) : list string :=
  match t with
  | [] => []
  | EvGet req _ :: t' => req_url req :: requested t'
  | _ :: t' => requested t'
  end.

(** The reports written to disk, in order. *)
Fixpoint written (t : list event) : list Report :=
  match t with
  | [] => []
  | EvWrite _ report None :: t' => report :: written t'
  | _ :: t' => written t'
  end.

Definition is_get_to (u : string) (ev : event) : bool :=
  match ev with
  | EvGet req _ => String.eqb (req_url req) u
  | _ => false
  end.

(** The event is the answer of the engine to a spider status request, with
    status ['100']. *)
Definition observes_spider_complete (self : Scanner) (ev : event) : bool :=
  match ev with
  | EvGet req (Responds r) =>
      String.eqb (req_url req) (spider_status_url self) &&
      match response_item r "status" with
      | inr status => is_100 status
      | inl _ => false
      end
  | _ => false
  end.

(** ** Engines for examples *)

(** An engine that answers the n-th request with the n-th outcome of a
    script, and refuses connections afterwards. *)
Definition scripted (script : list http_outcome) : World :=
  {| http := fun n => nth n script (Fails ConnectionError);
     popen := None; makedirs := None; file_write := None;
     clock := "2024-01-01 00:00:00" |}.

Definition ok (j : json) : http_outcome :=
  Responds {| status_code := 200; body := Some j |}.

(** A run where every step succeeds at once and the engine reports
    [alerts]. *)
Definition cooperative (alerts : list json) : World :=
  scripted
    [ ok (JObj [("version", JStr "2.14.0")]);
      ok (JObj [("Result", JStr "OK")]);
      ok (JObj [("status", JStr "up")]);
      ok (JObj [("scan", JStr "0")]);
      ok (JObj [("status", JStr "100")]);
      ok (JObj [("scan", JStr "0")]);
      ok (JObj [("status", JStr "100")]);
      ok (JObj [("alerts", JArr alerts)]);
      Responds {| status_code := 200; body := None |} ].

(** The same run, but the connection drops when the HTML report is
    requested. *)
Definition html_export_down (alerts : list json) : World :=
  scripted
    [ ok (JObj [("version", JStr "2.14.0")]);
      ok (JObj [("Result", JStr "OK")]);
      ok (JObj [("status", JStr "up")]);
      ok (JObj [("scan", JStr "0")]);
      ok (JObj [("status", JStr "100")]);
      ok (JObj [("scan", JStr "0")]);
      ok (JObj [("status", JStr "100")]);
      ok (JObj [("alerts", JArr alerts)]);
      Fails ConnectionError ].

(** An engine that never answers. *)
Definition unreachable : World := scripted [].

(** An engine whose version endpoint answers 204 No Content. *)
Definition no_content : World :=
  {| http := fun _ => Responds {| status_code := 204; body := None |};
     popen := None; makedirs := None; file_write := None;
     clock := "2024-01-01 00:00:00" |}.

Definition scanner0 : Scanner :=
  {| target_url := "http://localhost:3000";
     api_url := "http://localhost:8080";
     zap_port := 8080;
     results_dir := "security/results" |}.

Definition alert_of (risk : string) (title : string) : json :=
  JObj [("alert", JStr title); ("risk", JStr risk)].

(** ** Grouping by severity, as the specification words it *)

Definition severities : list string := ["High"; "Medium"; "Low"; "Informational"].

(** The severity field of a finding, [None] when the field is missing. *)
Definition severity_field (alert : json) : option json :=
  match alert with
  | JObj fields => lookup "risk" fields
  | _ => None
  end.

(** The bucket a finding belongs to: the bucket of its severity, and
    [Informational] when the severity field is missing. *)
Definition in_bucket (bucket : string) (alert : json) : bool :=
  match alert with
  | JObj fields =>
      match lookup "risk" fields with
      | Some (JStr s) => String.eqb s bucket
      | Some _ => false
      | None => String.eqb "Informational" bucket
      end
  | _ => false
  end.

(** The entry a finding contributes to its bucket. *)
Definition finding_of_alert (alert : json) : Finding :=
  match alert with
  | JObj fields => finding_of fields
  | _ => finding_of []
  end.

(** A finding as the data model has it: a dict whose severity is one of
    the four levels, or is missing. *)
Definition recognised (alert : json) : Prop :=
  match alert with
  | JObj fields =>
      match lookup "risk" fields with
      | Some (JStr s) => In s severities
      | Some _ => False
      | None => True
      end
  | _ => False
  end.

(** [results.get('alerts', [])] followed by the iteration over it. *)
Definition retrieved (results : json) : exn + list json :=
  match py_get results "alerts" (JArr []) with
  | inl e => inl e
  | inr alerts => py_iter alerts
  end.


(** ** Properties of computations *)

(** Every event of every run of [m] satisfies [P]; and [m] does not
    remove the [zap_process] attribute (no method does). *)
Definition emits (P : event -> Prop) {A} (m : M A) : Prop :=
  forall w s,
    Forall P (trace (m w s)) /\
    (has_zap_process s = true ->
     has_zap_process (final_state (m w s)) = true).

Definition is_print (ev : event) : Prop :=
  match ev with
  | EvPrint _ => True
  | _ => False
  end.

(** The event is a request to one of [urls], a sleep, a print or a file
    write: nothing that spawns or stops the engine process. *)
Definition talks_to (urls : list string) (ev : event) : Prop :=
  match ev with
  | EvGet req _ => In (req_url req) urls
  | EvSleep _ | EvPrint _ | EvWrite _ _ _ => True
  | EvMakedirs _ _ | EvPopen _ _ | EvTerminate | EvWait => False
  end.

(** The endpoints the scan steps use. *)
Definition scan_urls (self : Scanner) : list string :=
  [include_in_context_url self; health_url self;
   spider_scan_url self; spider_status_url self;
   ascan_scan_url self; ascan_status_url self;
   alerts_url self; html_report_url self].

(** ** The ordering of discovery and probing *)

(** Whether the most recent spider status request seen was answered with
    status ['100']; [complete] is the value before the events of [t]. *)
Fixpoint discovery_complete (self : Scanner) (complete : bool) (t : list event)
  : bool :=
  match t with
  | [] => complete
  | ev :: t' =>
      discovery_complete self
        (if is_get_to (spider_status_url self) ev
         then observes_spider_complete self ev
         else complete)
        t'
  end.

(** The engine double of the specification: it fails any active-scan
    start request submitted while discovery is not complete.  [true] when
    no request of [t] fails. *)
Fixpoint probing_guarded (self : Scanner) (complete : bool) (t : list event)
  : bool :=
  match t with
  | [] => true
  | ev :: t' =>
      (if is_get_to (ascan_scan_url self) ev then complete else true) &&
      probing_guarded self (discovery_complete self complete [ev]) t'
  end.

(** Neither an active-scan start nor a spider status request. *)
Definition quiet (self : Scanner) (ev : event) : Prop :=
  is_get_to (ascan_scan_url self) ev = false /\
  is_get_to (spider_status_url self) ev = false.

(** A Hoare triple on the discovery state: no run of [m] started with
    discovery state [c] fails the engine double, and a run that returns
    leaves the discovery state [c']. *)
Definition tracks (self : Scanner) (c c' : bool) {A} (m : M A) : Prop :=
  forall w s,
    probing_guarded self c (trace (m w s)) = true /\
    (forall a, outcome (m w s) = Ret a ->
               discovery_complete self c (trace (m w s)) = c').

(** The last character of a string. *)
Fixpoint last_char (s : string) : option ascii :=
  match s with
  | EmptyString => None
  | String c EmptyString => Some c
  | String _ s' => last_char s'
  end.

(** ** Further observations *)

(** The requests sent, in order, with their parameters. *)
Fixpoint requests_of (t : list event) : list Request :=
  match t with
  | [] => []
  | EvGet req _ :: t' => req :: requests_of t'
  | _ :: t' => requests_of t'
  end.


(** The n-th request is answered with a JSON object whose ['status'] is
    [status]. *)
Definition reports_status (w : World) (n : nat) (status : json) : Prop :=
  exists r, http w n = Responds r /\ response_item r "status" = inr status.

(** The n-th request is answered with a JSON object whose ['scan'] is
    [scan_id]. *)
Definition reports_scan (w : World) (n : nat) (scan_id : json) : Prop :=
  exists r, http w n = Responds r /\ response_item r "scan" = inr scan_id.

(** From request [n] on, the engine reports the statuses of the list, one
    per request, none of them ['100'], and then ['100']. *)
Definition completes_after (w : World) (n : nat) (statuses : list json) : Prop :=
  Forall (fun status => is_100 status = false) statuses /\
  (forall j status,
     nth_error statuses j = Some status -> reports_status w (n + j) status) /\
  reports_status w (n + length statuses) (JStr "100").

(** From request [n] on, the engine never reports the string ['100']. *)
Definition never_completes (w : World) (n : nat) : Prop :=
  forall j, exists status,
    reports_status w (n + j) status /\ is_100 status = false.

(** The request that starts the spider (lines 82-86). *)
Definition spider_scan_request (self : Scanner) : Request :=
  request (spider_scan_url self)
    [("url", JStr (target_url self));
     ("maxChildren", JStr "100");
     ("recurse", JStr "true")].

(** The request that starts the active scan (lines 107-111). *)
Definition ascan_scan_request (self : Scanner) : Request :=
  request (ascan_scan_url self)
    [("url", JStr (target_url self));
     ("recurse", JStr "true");
     ("inScopeOnly", JStr "false")].

(** An engine that answers every request with the scan id ["0"] and the
    status 100 as a JSON number, not as the string ['100']. *)
Definition numeric_status : World :=
  {| http := fun _ => ok (JObj [("scan", JStr "0"); ("status", JNum 100)]);
     popen := None; makedirs := None; file_write := None;
     clock := "2024-01-01 00:00:00" |}.

(** An engine whose scans report 30, then 65, then ['100']. *)
Definition slow_scan : World :=
  scripted
    [ ok (JObj [("scan", JStr "7")]);
      ok (JObj [("status", JStr "30")]);
      ok (JObj [("status", JStr "65")]);
      ok (JObj [("status", JStr "100")]) ].

(** What a scan start raises on an answer that carries no scan id: the
    failure of the request, [ValueError] for a body that is not JSON,
    [TypeError] for JSON that is not an object, [KeyError] for an object
    without ['scan']; [None] when the answer carries an id. *)
Definition start_error (out : http_outcome) : option exn :=
  match out with
  | Fails e => Some e
  | Responds r =>
      match body r with
      | None => Some ValueError
      | Some (JObj fields) =>
          match lookup "scan" fields with
          | Some _ => None
          | None => Some KeyError
          end
      | Some _ => Some TypeError
      end
  end.

(** An engine that answers every request with an empty JSON object. *)
Definition empty_answers : World :=
  {| http := fun _ => ok (JObj []);
     popen := None; makedirs := None; file_write := None;
     clock := "2024-01-01 00:00:00" |}.

(** The request that puts the target in scope (lines 54-57). *)
Definition scope_request (self : Scanner) : Request :=
  request (include_in_context_url self)
    [("contextName", JStr "Default Context");
     ("regex", JStr (target_url self ++ ".*"))].

(** An engine that answers the first request with status 500 and refuses
    every later connection. *)
Definition scope_rejected : World :=
  scripted [Responds {| status_code := 500; body := None |}].

(** The per-severity lines printed after the total (lines 177-179), as
    pairs of severity and count. *)
Fixpoint risk_lines (t : list event) : list (string * Z) :=
  match t with
  | [] => []
  | EvPrint [Lit "  "; Lit risk; Lit ": "; Fmt (JNum count)] :: t' =>
      (risk, count) :: risk_lines t'
  | _ :: t' => risk_lines t'
  end.

(** The totals announced by "Security scan completed. Found n total
    alerts:" (line 176). *)
Fixpoint announced (t : list event) : list Z :=
  match t with
  | [] => []
  | EvPrint [Lit "Security scan completed. Found "; Fmt (JNum n);
             Lit " total alerts:"] :: t' => n :: announced t'
  | _ :: t' => announced t'
  end.

(** The report of a scan without findings. *)
Definition empty_report (now target : string) : Report :=
  {| scan_date := now;
     report_target_url := target;
     summary := risk_counts0;
     findings := detailed_findings0;
     total_alerts := 0 |}.

(** Write attempts, successful or not. *)
Fixpoint write_attempts (t : list event) : nat :=
  match t with
  | [] => 0
  | EvWrite _ _ _ :: t' => S (write_attempts t')
  | _ :: t' => write_attempts t'
  end.

(** An engine behind a read-only results directory. *)
Definition read_only_disk : World :=
  {| http := fun _ => ok (JObj []);
     popen := None; makedirs := None; file_write := Some OSError;
     clock := "2024-01-01 00:00:00" |}.

(** The line printed for one severity. *)
Definition risk_line (entry : string * Z) : event :=
  EvPrint [Lit "  "; Lit (fst entry); Lit ": "; Fmt (JNum (snd entry))].

(** [isinstance(v, dict)] *)
Definition is_object (v : json) : bool :=
  match v with
  | JObj _ => true
  | _ => false
  end.

(** [None], a boolean or a number: a JSON value that cannot be iterated. *)
Definition is_scalar (v : json) : bool :=
  match v with
  | JNull | JBool _ | JNum _ => true
  | _ => false
  end.

(** An engine that refuses two connections, then answers 503, then 200. *)
Definition warming_up : World :=
  scripted
    [ Fails ConnectionError; Fails ConnectionError;
      Responds {| status_code := 503; body := None |};
      ok (JObj [("version", JStr "2.14.0")]) ].

(** An engine whose second answer never arrives (a read timeout). *)
Definition stalls : World :=
  scripted [ Fails ConnectionError; Fails Timeout ].

(** Two scanners that agree on everything but [api_url]. *)
Definition same_settings (a b : Scanner) : Prop :=
  target_url a = target_url b /\
  zap_port a = zap_port b /\
  results_dir a = results_dir b.

(** ** Results only after the active scan *)

(** The event is the engine's answer to a request to [status_url], with
    status ['100']. *)
Definition answers_complete (status_url : string) (ev : event) : bool :=
  match ev with
  | EvGet req (Responds r) =>
      String.eqb (req_url req) status_url &&
      match response_item r "status" with
      | inr status => is_100 status
      | inl _ => false
      end
  | _ => false
  end.

(** Whether the most recent request to [status_url] seen in [t] was
    answered with status ['100']; [c] is the value before [t]. *)
Fixpoint completed (status_url : string) (c : bool) (t : list event) : bool :=
  match t with
  | [] => c
  | ev :: t' =>
      completed status_url
        (if is_get_to status_url ev then answers_complete status_url ev else c)
        t'
  end.

(** No event of [t] selected by [trigger] happens while the scan polled
    at [status_url] is not complete. *)
Fixpoint only_after (trigger : event -> bool) (status_url : string) (c : bool)
    (t : list event) : bool :=
  match t with
  | [] => true
  | ev :: t' =>
      (if trigger ev then c else true) &&
      only_after trigger status_url (completed status_url c [ev]) t'
  end.

(** The event neither is selected by [trigger] nor asks for the status. *)
Definition calm (trigger : event -> bool) (status_url : string) (ev : event)
  : Prop :=
  trigger ev = false /\ is_get_to status_url ev = false.

(** No run of [m] started in state [c] lets a trigger happen before
    completion, and a run that returns leaves the state [c']. *)
Definition after (trigger : event -> bool) (status_url : string) (c c' : bool)
    {A} (m : M A) : Prop :=
  forall w s,
    only_after trigger status_url c (trace (m w s)) = true /\
    (forall a, outcome (m w s) = Ret a ->
               completed status_url c (trace (m w s)) = c').

(** The events that use the results of the scan: the request for the
    alerts, the write of the report, the request for the HTML report. *)
Definition uses_results (self : Scanner) (ev : event) : bool :=
  match ev with
  | EvGet req _ =>
      String.eqb (req_url req) (alerts_url self) ||
      String.eqb (req_url req) (html_report_url self)
  | EvWrite _ _ _ => true
  | _ => false
  end.

(** ** Exit codes *)

(** [m] never leaves through [sys.exit]: it returns, raises an
    [Exception], or keeps running. *)
Definition no_exit {A} (m : M A) : Prop :=
  forall w s code, outcome (m w s) <> Exc (SystemExit code).

(** ** A run that completes *)




(** ** Severities that are present but not usable *)

(** What the count update raises for a severity value that is present in
    a finding: nothing for one of the four levels, [KeyError] for any
    other string and for null, booleans and numbers, [TypeError] for a
    list or an object (they cannot be dictionary keys). *)
Definition severity_error (risk : json) : option exn :=
  match risk with
  | JStr s => if existsb (String.eqb s) severities then None else Some KeyError
  | JArr _ | JObj _ => Some TypeError
  | JNull | JBool _ | JNum _ => Some KeyError
  end.

(** An engine on a machine without [zap.sh]. *)
Definition not_installed : World :=
  {| http := fun _ => Fails ConnectionError;
     popen := Some OSError; makedirs := None; file_write := None;
     clock := "2024-01-01 00:00:00" |}.

(** * Properties *)

(** ** Dictionaries *)

Section DictFacts.
Context {V : Type}.
Implicit Types (d : list (string * V)) (f : V -> V) (k : string).

Lemma keys_update k f d : keys (update k f d) = keys d.
Proof.
  unfold keys.
  induction d as [|[k' v] d IH]; simpl; [reflexivity|].
  destruct (String.eqb k k'); simpl; [reflexivity|].
  now rewrite IH.
Qed.

Lemma lookup_update_same k f d :
  lookup k (update k f d) = option_map f (lookup k d).
Proof.
  induction d as [|[k' v] d IH]; simpl; [reflexivity|].
  destruct (String.eqb k k') eqn:E; simpl; rewrite E; auto.
Qed.

Lemma lookup_update_other k k' f d :
  k <> k' -> lookup k' (update k f d) = lookup k' d.
Proof.
  intros Hne.
  induction d as [|[k0 v] d IH]; simpl; [reflexivity|].
  destruct (String.eqb k k0) eqn:E; simpl.
  - apply String.eqb_eq in E. subst k0.
    destruct (String.eqb k' k) eqn:E'; [|reflexivity].
    apply String.eqb_eq in E'. congruence.
  - now rewrite IH.
Qed.

Lemma lookup_in_keys k d : lookup k d <> None <-> In k (keys d).
Proof.
  unfold keys.
  induction d as [|[k' v] d IH]; simpl; [tauto|].
  destruct (String.eqb k k') eqn:E.
  - apply String.eqb_eq in E. subst. split; [auto | discriminate].
  - apply String.eqb_neq in E. rewrite IH. split; [auto|].
    intros [H|H]; [congruence | assumption].
Qed.
End DictFacts.

Lemma sum_values_update k d c :
  lookup k d = Some c ->
  sum_values (update k (fun c => c + 1) d) = sum_values d + 1.
Proof.
  unfold sum_values, values.
  induction d as [|[k' v] d IH]; simpl; [discriminate|].
  destruct (String.eqb k k'); simpl; intros H.
  - lia.
  - rewrite (IH H). lia.
Qed.

Lemma entries_update {A} k (d : list (string * list A)) l x :
  lookup k d = Some l ->
  entries (update k (fun l => l ++ [x]) d) = entries d + 1.
Proof.
  unfold entries, values.
  induction d as [|[k' v] d IH]; simpl; [discriminate|].
  destruct (String.eqb k k'); simpl; intros H.
  - rewrite length_app. simpl. lia.
  - rewrite (IH H). lia.
Qed.

(** ** The categorisation loop *)

(** What one iteration does when it does not raise: the alert is a dict,
    its risk selects a key [k] of the count table, and both tables are
    updated at [k]. *)
Lemma categorize_alert_inr alert rc df rc' df' :
  categorize_alert alert (rc, df) = inr (rc', df') ->
  exists k c,
    lookup k rc = Some c /\
    (forall s, in_bucket s alert = String.eqb k s) /\
    rc' = update k (fun c => c + 1) rc /\
    df' = update k (fun l => l ++ [finding_of_alert alert]) df.
Proof.
  unfold categorize_alert.
  destruct alert as [| | | |items|fields]; try discriminate.
  unfold field, risk_key. simpl.
  destruct (lookup "risk" fields) as [[| | |r| |]|] eqn:Hrisk; try discriminate.
  - destruct (lookup r rc) as [c|] eqn:Hc; [|discriminate].
    intros H. injection H as <- <-. exists r, c. auto.
  - destruct (lookup "Informational" rc) as [c|] eqn:Hc; [|discriminate].
    intros H. injection H as <- <-. exists "Informational", c. auto.
Qed.

Lemma option_map_app_nil {A} (o : option (list A)) :
  o = option_map (fun l => l ++ []) o.
Proof. destruct o; simpl; [now rewrite app_nil_r | reflexivity]. Qed.

Lemma option_map_add_0 (o : option Z) : o = option_map (fun c => c + 0) o.
Proof. destruct o; simpl; [now rewrite Z.add_0_r | reflexivity]. Qed.

(** The loop invariant: after the loop, every count has grown by the
    number of alerts of its bucket, every bucket by the entries of these
    alerts in the order of the sequence, and the counts by one per
    alert. *)
Lemma categorize_inr alerts : forall rc df rc' df',
  categorize alerts (rc, df) = inr (rc', df') ->
  sum_values rc' = sum_values rc + Z.of_nat (length alerts) /\
  keys rc' = keys rc /\
  (forall s, lookup s rc' =
             option_map
               (fun c => c + Z.of_nat (length (filter (in_bucket s) alerts)))
               (lookup s rc)) /\
  (forall s, lookup s df' =
             option_map
               (fun l => l ++ map finding_of_alert (filter (in_bucket s) alerts))
               (lookup s df)).
Proof.
  induction alerts as [|alert rest IH]; intros rc df rc' df'.
  - simpl. intros H. injection H as <- <-.
    split; [lia|]. split; [reflexivity|].
    split; intros s; [apply option_map_add_0 | apply option_map_app_nil].
  - cbn [categorize].
    destruct (categorize_alert alert (rc, df)) as [e|[rc1 df1]] eqn:Hstep;
      [discriminate|].
    intros Hrest.
    apply categorize_alert_inr in Hstep as (k & c & Hk & Hb & -> & ->).
    apply IH in Hrest as (Hsum & Hkeys & Hcount & Hbucket).
    rewrite (sum_values_update _ _ _ Hk) in Hsum.
    rewrite keys_update in Hkeys.
    split; [|split; [|split]].
    + rewrite Hsum. cbn [length]. lia.
    + exact Hkeys.
    + intros s. rewrite Hcount. cbn [filter]. rewrite Hb.
      destruct (String.eqb k s) eqn:E.
      * apply String.eqb_eq in E. subst s.
        rewrite lookup_update_same.
        destruct (lookup k rc); simpl; [f_equal; lia | reflexivity].
      * apply String.eqb_neq in E.
        now rewrite lookup_update_other.
    + intros s. rewrite Hbucket. cbn [filter]. rewrite Hb.
      destruct (String.eqb k s) eqn:E.
      * apply String.eqb_eq in E. subst s.
        rewrite lookup_update_same.
        destruct (lookup k df); simpl; [|reflexivity].
        now rewrite <- app_assoc.
      * apply String.eqb_neq in E.
        now rewrite lookup_update_other.
Qed.

(** The buckets grow by one entry per alert. *)
Lemma categorize_entries alerts : forall rc df rc' df',
  keys df = keys rc ->
  categorize alerts (rc, df) = inr (rc', df') ->
  entries df' = entries df + Z.of_nat (length alerts).
Proof.
  induction alerts as [|alert rest IH]; intros rc df rc' df' Hkeys.
  - simpl. intros H. injection H as <- <-. lia.
  - cbn [categorize].
    destruct (categorize_alert alert (rc, df)) as [e|[rc1 df1]] eqn:Hstep;
      [discriminate|].
    intros Hrest.
    apply categorize_alert_inr in Hstep as (k & c & Hk & _ & -> & ->).
    apply IH in Hrest; [|now rewrite !keys_update].
    destruct (lookup k df) as [l|] eqn:Hl.
    + rewrite (entries_update _ _ _ _ Hl) in Hrest.
      rewrite Hrest. cbn [length]. lia.
    + exfalso.
      assert (Hin : In k (keys rc)) by (apply lookup_in_keys; congruence).
      rewrite <- Hkeys in Hin. apply lookup_in_keys in Hin. contradiction.
Qed.

(** The loop does not raise on findings of the data model. *)
Lemma categorize_recognised alerts : forall rc df,
  incl severities (keys rc) ->
  Forall recognised alerts ->
  exists acc, categorize alerts (rc, df) = inr acc.
Proof.
  induction alerts as [|alert rest IH]; intros rc df Hkeys Hall.
  - eexists. reflexivity.
  - inversion Hall as [|? ? Hrec Hrest]; subst.
    cbn [categorize].
    assert (Hstep : exists k,
               In k severities /\
               categorize_alert alert (rc, df) =
               inr (update k (fun c => c + 1) rc,
                    update k (fun l => l ++ [finding_of_alert alert]) df)).
    { destruct alert as [| | | |items|fields]; try contradiction.
      unfold recognised in Hrec. unfold categorize_alert, field, risk_key.
      simpl finding_of_alert.
      destruct (lookup "risk" fields) as [[| | |r| |]|]; try contradiction.
      - exists r. split; [assumption|].
        destruct (lookup r rc) eqn:Hr; [reflexivity|].
        exfalso. apply Hkeys in Hrec.
        apply lookup_in_keys in Hrec. contradiction.
      - exists "Informational". split; [simpl; tauto|].
        destruct (lookup "Informational" rc) eqn:Hr; [reflexivity|].
        exfalso. assert (Hin : In "Informational" severities) by (simpl; tauto).
        apply Hkeys, lookup_in_keys in Hin. contradiction. }
    destruct Hstep as (k & _ & ->).
    apply IH; [|assumption].
    now rewrite keys_update.
Qed.

(** ** The report *)

Lemma make_report_inr now target results r :
  make_report now target results = inr r ->
  exists alerts items,
    py_get results "alerts" (JArr []) = inr alerts /\
    py_iter alerts = inr items /\
    categorize items (risk_counts0, detailed_findings0) =
      inr (summary r, findings r) /\
    py_len alerts = inr (total_alerts r) /\
    scan_date r = now /\ report_target_url r = target.
Proof.
  unfold make_report.
  destruct (py_get results "alerts" (JArr [])) as [e|alerts] eqn:Hget;
    [discriminate|].
  destruct (py_iter alerts) as [e|items] eqn:Hiter; [discriminate|].
  destruct (categorize items (risk_counts0, detailed_findings0))
    as [e|[rc df]] eqn:Hcat; [discriminate|].
  destruct (py_len alerts) as [e|n] eqn:Hlen; [discriminate|].
  intros H. injection H as <-. exists alerts, items. simpl.
  repeat split; assumption.
Qed.

Lemma length_chars s : length (chars s) = String.length s.
Proof. induction s; simpl; congruence. Qed.

(** [len(alerts)] is the number of items the loop iterates over. *)
Lemma py_len_iter v items n :
  py_iter v = inr items -> py_len v = inr n -> n = Z.of_nat (length items).
Proof.
  destruct v; simpl; try discriminate; intros H1 H2;
    injection H1 as <-; injection H2 as <-.
  - now rewrite length_chars.
  - reflexivity.
  - unfold keys. now rewrite !length_map.
Qed.

Lemma py_iter_len v items :
  py_iter v = inr items -> py_len v = inr (Z.of_nat (length items)).
Proof.
  destruct v; simpl; try discriminate; intros H1; injection H1 as <-.
  - now rewrite length_chars.
  - reflexivity.
  - unfold keys. now rewrite !length_map.
Qed.

(** Findings of the data model always yield a report. *)
Lemma make_report_recognised now target results items :
  retrieved results = inr items ->
  Forall recognised items ->
  exists r, make_report now target results = inr r.
Proof.
  unfold retrieved, make_report.
  destruct (py_get results "alerts" (JArr [])) as [e|alerts]; [discriminate|].
  intros Hiter Hall. rewrite Hiter.
  destruct (categorize_recognised items risk_counts0 detailed_findings0)
    as ([rc df] & ->); [apply incl_refl | assumption |].
  rewrite (py_iter_len _ _ Hiter). eexists. reflexivity.
Qed.

(** ** Running computations *)

Lemma bind_Ret {A B} (m : M A) (f : A -> M B) w s a s1 t1 :
  m w s = (Ret a, s1, t1) ->
  bind m f w s =
  (outcome (f a w s1), final_state (f a w s1), t1 ++ trace (f a w s1)).
Proof.
  intros H. unfold bind. rewrite H.
  destruct (f a w s1) as [[r s2] t2]. reflexivity.
Qed.

Lemma bind_Exc {A B} (m : M A) (f : A -> M B) w s r s1 t1 :
  m w s = (Exc r, s1, t1) -> bind m f w s = (Exc r, s1, t1).
Proof. intros H. unfold bind. now rewrite H. Qed.

Lemma bind_Diverge {A B} (m : M A) (f : A -> M B) w s s1 t1 :
  m w s = (Diverge, s1, t1) -> bind m f w s = (Diverge, s1, t1).
Proof. intros H. unfold bind. now rewrite H. Qed.

(** The trace of [m ;; f] starts with the trace of [m]. *)
Lemma trace_bind {A B} (m : M A) (f : A -> M B) w s :
  trace (bind m f w s) =
  trace (m w s) ++
  match outcome (m w s) with
  | Ret a => trace (f a w (final_state (m w s)))
  | _ => []
  end.
Proof.
  unfold bind, outcome, final_state, trace.
  destruct (m w s) as [[[a|r|] s1] t1]; simpl.
  - now destruct (f a w s1) as [[r2 s2] t2].
  - now rewrite app_nil_r.
  - now rewrite app_nil_r.
Qed.

Lemma outcome_bind {A B} (m : M A) (f : A -> M B) w s :
  outcome (bind m f w s) =
  match outcome (m w s) with
  | Ret a => outcome (f a w (final_state (m w s)))
  | Exc r => Exc r
  | Diverge => Diverge
  end.
Proof.
  unfold bind, outcome, final_state, trace.
  destruct (m w s) as [[[a|r|] s1] t1]; simpl; try reflexivity.
  now destruct (f a w s1) as [[r2 s2] t2].
Qed.

Lemma final_state_bind {A B} (m : M A) (f : A -> M B) w s :
  final_state (bind m f w s) =
  match outcome (m w s) with
  | Ret a => final_state (f a w (final_state (m w s)))
  | _ => final_state (m w s)
  end.
Proof.
  unfold bind, outcome, final_state, trace.
  destruct (m w s) as [[[a|r|] s1] t1]; simpl; try reflexivity.
  now destruct (f a w s1) as [[r2 s2] t2].
Qed.

Lemma trace_try_finally {A} (body : M A) (fin : M unit) w s :
  trace (try_finally body fin w s) =
  trace (body w s) ++
  match outcome (body w s) with
  | Diverge => []
  | _ => trace (fin w (final_state (body w s)))
  end.
Proof.
  unfold try_finally, outcome, final_state, trace.
  destruct (body w s) as [[[a|r|] s1] t1]; simpl;
    try (now rewrite app_nil_r);
    now destruct (fin w s1) as [[[u|r2|] s2] t2].
Qed.

Lemma outcome_try_finally {A} (body : M A) (fin : M unit) w s :
  outcome (try_finally body fin w s) =
  match outcome (body w s) with
  | Diverge => Diverge
  | r =>
      match outcome (fin w (final_state (body w s))) with
      | Ret _ => r
      | Exc e => Exc e
      | Diverge => Diverge
      end
  end.
Proof.
  unfold try_finally, outcome, final_state, trace.
  destruct (body w s) as [[[a|r|] s1] t1]; simpl; try reflexivity;
    now destruct (fin w s1) as [[[u|r2|] s2] t2].
Qed.

Lemma trace_try_except {A} (body : M A) handler w s :
  trace (try_except body handler w s) =
  trace (body w s) ++
  match outcome (body w s) with
  | Exc r =>
      match handler r with
      | Some h => trace (h w (final_state (body w s)))
      | None => []
      end
  | _ => []
  end.
Proof.
  unfold try_except, outcome, final_state, trace.
  destruct (body w s) as [[[a|r|] s1] t1]; simpl;
    try (now rewrite app_nil_r).
  destruct (handler r) as [h|]; simpl; [|now rewrite app_nil_r].
  now destruct (h w s1) as [[r2 s2] t2].
Qed.

Lemma outcome_try_except {A} (body : M A) handler w s :
  outcome (try_except body handler w s) =
  match outcome (body w s) with
  | Exc r =>
      match handler r with
      | Some h => outcome (h w (final_state (body w s)))
      | None => Exc r
      end
  | other => other
  end.
Proof.
  unfold try_except, outcome, final_state, trace.
  destruct (body w s) as [[[a|r|] s1] t1]; simpl; try reflexivity.
  destruct (handler r) as [h|]; simpl; [|reflexivity].
  now destruct (h w s1) as [[r2 s2] t2].
Qed.

Lemma final_state_try_except {A} (body : M A) handler w s :
  final_state (try_except body handler w s) =
  match outcome (body w s) with
  | Exc r =>
      match handler r with
      | Some h => final_state (h w (final_state (body w s)))
      | None => final_state (body w s)
      end
  | _ => final_state (body w s)
  end.
Proof.
  unfold try_except, outcome, final_state, trace.
  destruct (body w s) as [[[a|r|] s1] t1]; simpl; try reflexivity.
  destruct (handler r) as [h|]; simpl; [|reflexivity].
  now destruct (h w s1) as [[r2 s2] t2].
Qed.

(** ** Events of a computation *)

Section Emits.
Variable P : event -> Prop.

Lemma emits_ret {A} (a : A) : emits P (ret a).
Proof. intros w s. split; [constructor | auto]. Qed.

Lemma emits_raise {A} r : emits P (@raise A r).
Proof. intros w s. split; [constructor | auto]. Qed.

Lemma emits_diverge {A} : emits P (@diverge A).
Proof. intros w s. split; [constructor | auto]. Qed.

Lemma emits_lift {A} (x : exn + A) : emits P (lift x).
Proof. destruct x; [apply emits_raise | apply emits_ret]. Qed.

Lemma emits_emit ev : P ev -> emits P (emit ev).
Proof. intros H w s. split; simpl; auto. Qed.

Lemma emits_bind {A B} (m : M A) (f : A -> M B) :
  emits P m -> (forall a, emits P (f a)) -> emits P (bind m f).
Proof.
  intros Hm Hf w s. destruct (Hm w s) as [Ht Hs]. split.
  - rewrite trace_bind. apply Forall_app. split; [exact Ht|].
    destruct (outcome (m w s)); [apply Hf | constructor | constructor].
  - intros H. rewrite final_state_bind.
    destruct (outcome (m w s)); auto. apply Hf. auto.
Qed.

Lemma emits_try_except {A} (body : M A) handler :
  emits P body ->
  (forall r h, handler r = Some h -> emits P h) ->
  emits P (try_except body handler).
Proof.
  intros Hb Hh w s. destruct (Hb w s) as [Ht Hs]. split.
  - rewrite trace_try_except. apply Forall_app. split; [exact Ht|].
    destruct (outcome (body w s)) as [a|r|]; try constructor.
    destruct (handler r) as [h|] eqn:E; [|constructor].
    now apply (Hh r h).
  - intros H. rewrite final_state_try_except.
    destruct (outcome (body w s)) as [a|r|]; auto.
    destruct (handler r) as [h|] eqn:E; auto.
    apply (Hh r h E). auto.
Qed.

Lemma emits_try_finally {A} (body : M A) fin :
  emits P body -> emits P fin -> emits P (try_finally body fin).
Proof.
  intros Hb Hf w s. destruct (Hb w s) as [Ht Hs]. split.
  - rewrite trace_try_finally. apply Forall_app. split; [exact Ht|].
    destruct (outcome (body w s)); [apply Hf | apply Hf | constructor].
  - intros H. specialize (Hs H). clear Ht.
    unfold try_finally, final_state in *.
    destruct (body w s) as [[[a|r|] s1] t1]; simpl in *; auto;
      destruct (Hf w s1) as [_ Hfs]; specialize (Hfs Hs);
      unfold final_state in Hfs;
      now destruct (fin w s1) as [[[u|r2|] s2] t2].
Qed.

Lemma emits_requests_get req :
  (forall out, P (EvGet req out)) -> emits P (requests_get req).
Proof.
  intros H w s. unfold requests_get.
  destruct (http w (requests_made s)) eqn:E; split; simpl; auto.
Qed.

Lemma emits_time_sleep n : P (EvSleep n) -> emits P (time_sleep n).
Proof. apply emits_emit. Qed.

Lemma emits_print msg : P (EvPrint msg) -> emits P (print msg).
Proof. apply emits_emit. Qed.

Lemma emits_sys_exit {A} code : emits P (@sys_exit A code).
Proof. apply emits_raise. Qed.

Lemma emits_time_strftime : emits P time_strftime.
Proof. intros w s. split; [constructor | auto]. Qed.

Lemma emits_os_makedirs path :
  (forall err, P (EvMakedirs path err)) -> emits P (os_makedirs path).
Proof.
  intros H w s. unfold os_makedirs. destruct (makedirs w); split; simpl; auto.
Qed.

Lemma emits_subprocess_Popen cmd :
  (forall err, P (EvPopen cmd err)) -> emits P (subprocess_Popen cmd).
Proof.
  intros H w s. unfold subprocess_Popen.
  destruct (popen w); split; simpl; auto.
Qed.

Lemma emits_write_json path report :
  (forall err, P (EvWrite path report err)) -> emits P (write_json path report).
Proof.
  intros H w s. unfold write_json.
  destruct (file_write w); split; simpl; auto.
Qed.

Lemma emits_if {A} (b : bool) (m1 m2 : M A) :
  emits P m1 -> emits P m2 -> emits P (if b then m1 else m2).
Proof. now destruct b. Qed.
End Emits.


(** ** Authentication probe (has_auth) *)

(** C5: [has_auth] sends one request to the health endpoint and never
    raises; it returns [True] exactly when that request is answered with
    status 401, and [False] for every other answer and for every failure
    of the request (connection error, timeout or any other). *)
Theorem has_auth_iff_401 (self : Scanner) (w : World) (s : State) :
  exists b : bool,
    has_auth self w s =
      (Ret b, sent s,
       [EvGet (health_request self) (http w (requests_made s))]) /\
    (b = true <->
     exists r, http w (requests_made s) = Responds r /\ status_code r = 401).
Proof.
  unfold has_auth, try_except, bind, requests_get, ret.
  destruct (http w (requests_made s)) as [r|e] eqn:Hout; cbn.
  - exists (status_code r =? 401). split; [reflexivity|].
    rewrite Z.eqb_eq. split.
    + intros H. exists r. auto.
    + intros (r' & Hr & H). now injection Hr as ->.
  - exists false. split; [reflexivity|].
    split; [discriminate|]. intros (r & Hr & _). discriminate.
Qed.

(** ** Engine start and readiness (start_zap_daemon) *)

(** One turn of the readiness loop. *)
Lemma poll_version_S self k w s :
  poll_version self (S k) w s =
  let ev := EvGet (request (version_url self) []) (http w (requests_made s)) in
  match http w (requests_made s) with
  | Responds r =>
      if status_code r =? 200 then (Ret true, sent s, [ev])
      else
        let '(r', s', t') := poll_version self k w (sent s) in
        (r', s', ev :: t')
  | Fails ConnectionError =>
      let '(r', s', t') := poll_version self k w (sent s) in
      (r', s', ev :: EvSleep 2 :: t')
  | Fails e => (Exc (Error e), sent s, [ev])
  end.
Proof.
  cbn [poll_version]. unfold bind at 1. unfold try_except, bind, requests_get.
  destruct (http w (requests_made s)) as [r|e]; cbn.
  - destruct (status_code r =? 200); cbn; [reflexivity|].
    now destruct (poll_version self k w (sent s)) as [[r' s'] t'].
  - destruct e; cbn; try reflexivity;
      now destruct (poll_version self k w (sent s)) as [[r' s'] t'].
Qed.

(** The loop ends by returning or by an [Exception]; it never leaves the
    process and never fails to terminate. *)
Lemma poll_version_outcome self attempts : forall w s,
  (exists b, outcome (poll_version self attempts w s) = Ret b) \/
  (exists e, outcome (poll_version self attempts w s) = Exc (Error e)).
Proof.
  induction attempts as [|k IH]; intros w s.
  - left. exists false. reflexivity.
  - rewrite poll_version_S. cbv zeta.
    specialize (IH w (sent s)).
    destruct (poll_version self k w (sent s)) as [[r' s'] t'].
    destruct (http w (requests_made s)) as [r|e].
    + destruct (status_code r =? 200); [left; now exists true | exact IH].
    + destruct e; try (right; eexists; reflexivity). exact IH.
Qed.

(** The loop returns [True] exactly when one of its attempts is answered
    with status 200 and every attempt before made it try again. *)
Lemma poll_version_true self attempts : forall w s,
  outcome (poll_version self attempts w s) = Ret true <->
  exists k, (k < attempts)%nat /\
            answers_200 w (requests_made s + k) /\
            forall j, (j < k)%nat -> retries w (requests_made s + j).
Proof.
  induction attempts as [|n IH]; intros w s.
  - split; [discriminate|]. intros (k & Hk & _). lia.
  - rewrite poll_version_S. cbv zeta.
    specialize (IH w (sent s)).
    destruct (poll_version self n w (sent s)) as [[r' s'] t'].
    unfold outcome in *. cbn [fst] in IH.
    assert (Hshift : forall j, (requests_made (sent s) + j
                                = requests_made s + S j)%nat)
      by (intros j; simpl; lia).
    assert (Hstep :
      retries w (requests_made s) ->
      (r' = Ret true <->
       exists k, (k < S n)%nat /\ answers_200 w (requests_made s + k) /\
                 forall j, (j < k)%nat -> retries w (requests_made s + j))).
    { intros Hretry. rewrite IH. split.
      - intros (k & Hk & Hans & Hpre). exists (S k).
        split; [lia|]. split; [now rewrite <- Hshift|].
        intros [|j] Hj; [now rewrite Nat.add_0_r|].
        rewrite <- Hshift. apply Hpre. lia.
      - intros ([|k] & Hk & Hans & Hpre).
        + exfalso. rewrite Nat.add_0_r in Hans.
          destruct Hans as (r & Hr & H200).
          destruct Hretry as [Hf|(r0 & Hr0 & Hne)]; congruence.
        + exists k. split; [lia|]. split; [now rewrite Hshift|].
          intros j Hj. rewrite Hshift. apply Hpre. lia. }
    destruct (http w (requests_made s)) as [r|e] eqn:Hout.
    + destruct (status_code r =? 200) eqn:H200; cbn [fst].
      * apply Z.eqb_eq in H200. split; [|reflexivity]. intros _.
        exists 0%nat. split; [lia|]. split.
        -- rewrite Nat.add_0_r. exists r. auto.
        -- intros j Hj. lia.
      * apply Z.eqb_neq in H200. apply Hstep. right. exists r. auto.
    + assert (Hno : e <> ConnectionError ->
                    ~ exists k, (k < S n)%nat /\
                        answers_200 w (requests_made s + k) /\
                        forall j, (j < k)%nat -> retries w (requests_made s + j)).
      { intros Hne ([|k] & Hk & Hans & Hpre).
        - rewrite Nat.add_0_r in Hans. destruct Hans as (r & Hr & _).
          congruence.
        - specialize (Hpre 0%nat ltac:(lia)). rewrite Nat.add_0_r in Hpre.
          destruct Hpre as [Hf|(r0 & Hr0 & _)]; congruence. }
      destruct e; cbn [fst];
        try (split; [discriminate | intros H; exfalso; revert H;
                                    apply Hno; discriminate]).
      apply Hstep. now left.
Qed.

(** What the loop sends and how long it sleeps: at most one request per
    attempt, all to the version endpoint, and two seconds of sleep for
    each connection error. *)
Lemma poll_version_trace self attempts : forall w s,
  let t := trace (poll_version self attempts w s) in
  (length (requested t) <= attempts)%nat /\
  Forall (fun u => u = version_url self) (requested t) /\
  (connection_errors t <= length (requested t))%nat /\
  slept t = 2 * Z.of_nat (connection_errors t) /\
  count_terminate t = 0%nat /\ count_wait t = 0%nat /\ spawned t = false.
Proof.
  induction attempts as [|n IH]; intros w s; cbv zeta.
  - cbn. repeat split; auto; lia.
  - rewrite poll_version_S. cbv zeta.
    specialize (IH w (sent s)). cbv zeta in IH.
    destruct (poll_version self n w (sent s)) as [[r' s'] t'].
    unfold trace in *. cbn [snd] in IH.
    destruct IH as (Hlen & Hall & Hce & Hsl & Hterm & Hwait & Hsp).
    destruct (http w (requests_made s)) as [r|e].
    + destruct (status_code r =? 200); cbn [snd].
      * cbn. repeat split; auto; lia.
      * cbn -[Z.mul Z.of_nat]. repeat split; auto; lia.
    + destruct e; cbn [snd];
        try (cbn; repeat split; auto; lia).
      cbn -[Z.mul Z.of_nat Z.add]. repeat split; auto; lia.
Qed.

Lemma poll_version_state self attempts : forall w s,
  has_zap_process (final_state (poll_version self attempts w s)) =
  has_zap_process s.
Proof.
  induction attempts as [|n IH]; intros w s; [reflexivity|].
  rewrite poll_version_S. cbv zeta.
  specialize (IH w (sent s)).
  destruct (poll_version self n w (sent s)) as [[r' s'] t'].
  destruct (http w (requests_made s)) as [r|e].
  - now destruct (status_code r =? 200).
  - now destruct e.
Qed.

(** [start_zap_daemon] in terms of its loop: a spawn failure and an
    exception out of the loop are printed and become [False]. *)
Lemma start_zap_daemon_eq self w s :
  start_zap_daemon self w s =
  match popen w with
  | Some e =>
      (Ret false, s,
       [EvPopen (cmd self) (Some e);
        EvPrint [Lit "Failed to start ZAP: "; FmtExn e]])
  | None =>
      match poll_version self max_attempts w
              {| requests_made := requests_made s; has_zap_process := true |}
      with
      | (Exc (Error e), s2, t) =>
          (Ret false, s2,
           EvPopen (cmd self) None ::
           t ++ [EvPrint [Lit "Failed to start ZAP: "; FmtExn e]])
      | (r, s2, t) => (r, s2, EvPopen (cmd self) None :: t)
      end
  end.
Proof.
  unfold start_zap_daemon, try_except, bind, subprocess_Popen.
  destruct (popen w) as [e|]; [reflexivity|].
  destruct (poll_version self max_attempts w _) as [[[b|[e|c]|] s2] t];
    reflexivity.
Qed.

Lemma requested_app t1 t2 : requested (t1 ++ t2) = requested t1 ++ requested t2.
Proof.
  induction t1 as [|ev t1 IH]; [reflexivity|].
  destruct ev; simpl; now rewrite ?IH.
Qed.

Lemma slept_app t1 t2 : slept (t1 ++ t2) = slept t1 + slept t2.
Proof.
  induction t1 as [|ev t1 IH]; [reflexivity|].
  destruct ev; simpl; rewrite ?IH; lia.
Qed.

Lemma connection_errors_app t1 t2 :
  connection_errors (t1 ++ t2) =
  (connection_errors t1 + connection_errors t2)%nat.
Proof.
  induction t1 as [|ev t1 IH]; [reflexivity|].
  destruct ev as [| |req [r|[]]| | | | |]; simpl; rewrite ?IH; lia.
Qed.

Lemma count_terminate_app t1 t2 :
  count_terminate (t1 ++ t2) = (count_terminate t1 + count_terminate t2)%nat.
Proof. unfold count_terminate. now rewrite filter_app, length_app. Qed.

Lemma count_wait_app t1 t2 :
  count_wait (t1 ++ t2) = (count_wait t1 + count_wait t2)%nat.
Proof. unfold count_wait. now rewrite filter_app, length_app. Qed.

(** What [start_zap_daemon] sends and how long it sleeps. *)
Lemma start_zap_daemon_trace self w s :
  let t := trace (start_zap_daemon self w s) in
  (length (requested t) <= 30)%nat /\
  Forall (fun u => u = version_url self) (requested t) /\
  slept t = 2 * Z.of_nat (connection_errors t) /\
  slept t <= 60.
Proof.
  cbv zeta. rewrite start_zap_daemon_eq.
  destruct (popen w) as [e|].
  - cbn. repeat split; auto; lia.
  - set (s1 := {| requests_made := requests_made s; has_zap_process := true |}).
    pose proof (poll_version_trace self max_attempts w s1) as Htr.
    cbv zeta in Htr.
    destruct (poll_version self max_attempts w s1) as [[r s2] t].
    unfold trace in *. cbn [snd] in *.
    change max_attempts with 30%nat in Htr.
    destruct Htr as (Hlen & Hall & Hce & Hsl & _).
    assert (Hbound : slept t <= 60) by lia.
    destruct r as [b|[e|c]|]; cbn [snd];
      try (cbn -[Z.mul Z.of_nat]; auto).
    cbn [requested slept connection_errors].
    rewrite requested_app, slept_app, connection_errors_app.
    cbn [requested slept connection_errors].
    rewrite app_nil_r, Z.add_0_r, Nat.add_0_r. auto.
Qed.

(** [start_zap_daemon] always returns a boolean. *)
Lemma start_zap_daemon_returns self w s :
  exists b : bool, outcome (start_zap_daemon self w s) = Ret b.
Proof.
  rewrite start_zap_daemon_eq.
  destruct (popen w) as [e|]; [now exists false|].
  set (s1 := {| requests_made := requests_made s; has_zap_process := true |}).
  pose proof (poll_version_outcome self max_attempts w s1) as Hout.
  destruct (poll_version self max_attempts w s1) as [[r s2] t].
  unfold outcome in *. cbn [fst] in *.
  destruct Hout as [(b & ->)|(e & ->)]; [now exists b | now exists false].
Qed.

(** C6 (as the code has it): [start_zap_daemon] never raises and always
    returns.  It returns [True] exactly when the engine process was
    spawned and one of at most 30 requests to the version endpoint is
    answered with status 200 (not any 2xx), every earlier one having been
    refused or answered with another status.  It sleeps two seconds after
    each refused connection and not after an answer, so at most 60
    seconds in all. *)
Theorem start_zap_daemon_readiness (self : Scanner) (w : World) (s : State) :
  let x := start_zap_daemon self w s in
  (exists b : bool, outcome x = Ret b) /\
  (outcome x = Ret true <->
   popen w = None /\
   exists k, (k < 30)%nat /\
             answers_200 w (requests_made s + k) /\
             forall j, (j < k)%nat -> retries w (requests_made s + j)) /\
  (length (requested (trace x)) <= 30)%nat /\
  Forall (fun u => u = version_url self) (requested (trace x)) /\
  slept (trace x) = 2 * Z.of_nat (connection_errors (trace x)) /\
  slept (trace x) <= 60.
Proof.
  cbv zeta.
  split; [apply start_zap_daemon_returns|].
  split; [|apply start_zap_daemon_trace].
  rewrite start_zap_daemon_eq.
  destruct (popen w) as [e|] eqn:Hpopen.
  - cbn. split; [discriminate | intros [H _]; discriminate].
  - set (s1 := {| requests_made := requests_made s; has_zap_process := true |}).
    pose proof (poll_version_outcome self max_attempts w s1) as Hout.
    pose proof (poll_version_true self max_attempts w s1) as Htrue.
    destruct (poll_version self max_attempts w s1) as [[r s2] t].
    unfold outcome in *. cbn [fst] in *.
    change (requests_made s1) with (requests_made s) in Htrue.
    change max_attempts with 30%nat in Htrue.
    destruct Hout as [(b & ->)|(e & ->)]; cbn [fst].
    + rewrite Htrue. tauto.
    + split; [discriminate|]. intros [_ H]. apply Htrue in H. discriminate.
Qed.

(** C6, counterexample: the version endpoint answers every request with
    204 No Content, a 2xx status; [start_zap_daemon] returns [False], and
    it does so without sleeping between its 30 requests. *)
Lemma start_zap_daemon_204_not_ready :
  ~ (forall (self : Scanner) (w : World) (s : State),
        (exists r, http w (requests_made s) = Responds r /\
                   200 <= status_code r < 300) ->
        outcome (start_zap_daemon self w s) = Ret true) /\
  outcome (start_zap_daemon scanner0 no_content initial_state) = Ret false /\
  length (requested (trace (start_zap_daemon scanner0 no_content
                              initial_state)))
    = 30%nat /\
  slept (trace (start_zap_daemon scanner0 no_content initial_state)) = 0.
Proof.
  split; [|repeat split; vm_compute; reflexivity].
  intros H.
  specialize (H scanner0 no_content initial_state).
  assert (Hret : outcome (start_zap_daemon scanner0 no_content initial_state)
                 = Ret false) by (vm_compute; reflexivity).
  rewrite Hret in H.
  enough (@Ret bool false = Ret true) by discriminate.
  apply H. eexists. split; [reflexivity|]. simpl. lia.
Qed.

(** ** Report generation (generate_report) *)

Lemma print_counts_run risk_counts : forall w s,
  exists t, print_counts risk_counts w s = (Ret tt, s, t) /\ Forall is_print t.
Proof.
  induction risk_counts as [|[risk count] rest IH]; intros w s.
  - exists []. split; [reflexivity | constructor].
  - destruct (IH w s) as (t & Ht & Hp).
    cbn [print_counts]. unfold bind.
    destruct (0 <? count); cbn; rewrite Ht.
    + eexists. split; [reflexivity|]. constructor; [exact I | exact Hp].
    + eexists. split; [reflexivity | exact Hp].
Qed.

(** Every way [generate_report] can go: the categorisation raises and
    nothing is written; the write fails; the report is written and the
    HTML request raises; the report is written, the HTML request is
    answered (with whatever status), and the summary is printed. *)
Lemma generate_report_run self results w s :
  match make_report (clock w) (target_url self) results with
  | inl e => generate_report self results w s = (Exc (Error e), s, [])
  | inr report =>
      match file_write w with
      | Some e =>
          generate_report self results w s =
          (Exc (Error e), s, [EvWrite (report_path self) report (Some e)])
      | None =>
          match http w (requests_made s) with
          | Fails e =>
              generate_report self results w s =
              (Exc (Error e), sent s,
               [EvWrite (report_path self) report None;
                EvGet (html_request self) (Fails e)])
          | Responds r =>
              exists t,
                generate_report self results w s =
                (Ret tt, sent s,
                 EvWrite (report_path self) report None ::
                 EvGet (html_request self) (Responds r) :: t) /\
                Forall is_print t
          end
      end
  end.
Proof.
  unfold generate_report, bind, time_strftime, lift, ret, raise, write_json,
    requests_get, print, emit.
  destruct (make_report (clock w) (target_url self) results) as [e|report];
    [reflexivity|].
  cbv beta iota.
  destruct (file_write w) as [e|]; [reflexivity|].
  destruct (http w (requests_made s)) as [r|e]; [|reflexivity].
  destruct (print_counts_run (summary report) w (sent s)) as (t & -> & Hp).
  eexists. split; [reflexivity|]. constructor; [exact I | exact Hp].
Qed.

Lemma written_app t1 t2 : written (t1 ++ t2) = written t1 ++ written t2.
Proof.
  induction t1 as [|ev t1 IH]; [reflexivity|].
  destruct ev as [| | | | |path report [e|]| |]; simpl; now rewrite ?IH.
Qed.

Lemma written_prints t : Forall is_print t -> written t = [].
Proof.
  induction 1 as [|ev t Hev _ IH]; [reflexivity|].
  destruct ev; try contradiction. exact IH.
Qed.

(** A report on disk after [generate_report] is the report of
    [make_report], and it is the only one written. *)
Lemma generate_report_written self results w s r :
  In r (written (trace (generate_report self results w s))) ->
  make_report (clock w) (target_url self) results = inr r /\
  written (trace (generate_report self results w s)) = [r].
Proof.
  pose proof (generate_report_run self results w s) as H.
  destruct (make_report (clock w) (target_url self) results) as [e|report].
  - rewrite H. contradiction.
  - destruct (file_write w) as [e|]; [rewrite H; contradiction|].
    destruct (http w (requests_made s)) as [resp|e].
    + destruct H as (t & -> & Hp). cbn. rewrite (written_prints _ Hp).
      intros [->|[]]. auto.
    + rewrite H. cbn. intros [->|[]]. auto.
Qed.

(** When the categorisation and the file write succeed, the report is
    written. *)
Lemma generate_report_writes self results w s r :
  make_report (clock w) (target_url self) results = inr r ->
  file_write w = None ->
  written (trace (generate_report self results w s)) = [r].
Proof.
  intros Hrep Hw.
  pose proof (generate_report_run self results w s) as H.
  rewrite Hrep, Hw in H.
  destruct (http w (requests_made s)) as [resp|e].
  - destruct H as (t & -> & Hp). cbn. now rewrite (written_prints _ Hp).
  - now rewrite H.
Qed.

(** C2: whenever [generate_report] writes a report, the severity counts
    of the report sum to [total_alerts], and [total_alerts] is the number
    of findings retrieved from the engine; for an empty sequence of
    findings every count and [total_alerts] are 0.  And a report is
    written for every sequence of findings whose severities are among the
    four levels or missing, when the file can be written. *)
Theorem report_totals (self : Scanner) (results : json) (w : World)
    (s : State) :
  (forall r,
     In r (written (trace (generate_report self results w s))) ->
     exists items,
       retrieved results = inr items /\
       sum_values (summary r) = total_alerts r /\
       total_alerts r = Z.of_nat (length items) /\
       entries (findings r) = total_alerts r /\
       keys (summary r) = severities /\
       (items = [] -> summary r = risk_counts0 /\ total_alerts r = 0)) /\
  (forall items,
     retrieved results = inr items ->
     Forall recognised items ->
     file_write w = None ->
     exists r, written (trace (generate_report self results w s)) = [r]).
Proof.
  split.
  - intros r Hin. apply generate_report_written in Hin as [Hrep _].
    apply make_report_inr in Hrep
      as (alerts & items & Hget & Hiter & Hcat & Hlen & _).
    exists items. unfold retrieved. rewrite Hget.
    split; [exact Hiter|].
    pose proof (py_len_iter _ _ _ Hiter Hlen) as Htotal.
    pose proof (categorize_inr _ _ _ _ _ Hcat) as (Hsum & Hkeys & _ & _).
    split; [rewrite Hsum, Htotal; reflexivity|].
    split; [exact Htotal|].
    split; [rewrite (categorize_entries items risk_counts0 detailed_findings0
                       _ _ eq_refl Hcat), Htotal; reflexivity|].
    split; [exact Hkeys|].
    intros ->. cbn in Hcat. injection Hcat as <- _.
    split; [reflexivity | exact Htotal].
  - intros items Hret Hall Hw.
    destruct (make_report_recognised (clock w) (target_url self) _ _ Hret Hall)
      as (r & Hr).
    exists r. now apply generate_report_writes.
Qed.

(** C2, witness: three findings, one of them without severity. *)
Lemma report_totals_witness :
  let results := JObj [("alerts", JArr [alert_of "High" "XSS"; JObj [];
                                        alert_of "Low" "Cookie"])] in
  let x := generate_report scanner0 results (scripted [ok JNull])
             initial_state in
  exists r,
    written (trace x) = [r] /\
    exists items,
      retrieved results = inr items /\
      sum_values (summary r) = total_alerts r /\
      total_alerts r = Z.of_nat (length items) /\
      entries (findings r) = total_alerts r /\
      keys (summary r) = severities /\
      (items = [] -> summary r = risk_counts0 /\ total_alerts r = 0).
Proof.
  cbv zeta.
  destruct (report_totals scanner0
              (JObj [("alerts", JArr [alert_of "High" "XSS"; JObj [];
                                      alert_of "Low" "Cookie"])])
              (scripted [ok JNull]) initial_state) as [Hinv Hdef].
  destruct (Hdef [alert_of "High" "XSS"; JObj []; alert_of "Low" "Cookie"])
    as (r & Hr).
  - reflexivity.
  - repeat constructor; simpl; tauto.
  - reflexivity.
  - exists r. split; [exact Hr|].
    apply Hinv. rewrite Hr. now left.
Defined.

(** C9: in the report that [generate_report] writes, the bucket of each
    severity holds the entries of the findings of that severity in the
    order in which they were retrieved: it is the retrieved sequence
    filtered by severity, not re-sorted. *)
Theorem buckets_keep_retrieval_order (self : Scanner) (results : json)
    (w : World) (s : State) (r : Report) :
  In r (written (trace (generate_report self results w s))) ->
  exists items,
    retrieved results = inr items /\
    forall severity,
      In severity severities ->
      lookup severity (findings r) =
      Some (map finding_of_alert (filter (in_bucket severity) items)).
Proof.
  intros Hin. apply generate_report_written in Hin as [Hrep _].
  apply make_report_inr in Hrep
    as (alerts & items & Hget & Hiter & Hcat & _).
  exists items. unfold retrieved. rewrite Hget.
  split; [exact Hiter|].
  pose proof (categorize_inr _ _ _ _ _ Hcat) as (_ & _ & _ & Hbucket).
  intros severity Hsev. rewrite Hbucket.
  simpl in Hsev.
  destruct Hsev as [<-|[<-|[<-|[<-|[]]]]]; reflexivity.
Qed.

(** C9, witness: two High findings around a Low one keep their order. *)
Lemma buckets_keep_retrieval_order_witness :
  exists r,
    In r (written (trace (generate_report scanner0
            (JObj [("alerts", JArr [alert_of "High" "first";
                                    alert_of "Low" "second";
                                    alert_of "High" "third"])])
            (scripted [ok JNull]) initial_state))) /\
    exists items,
      retrieved (JObj [("alerts", JArr [alert_of "High" "first";
                                        alert_of "Low" "second";
                                        alert_of "High" "third"])])
        = inr items /\
      forall severity,
        In severity severities ->
        lookup severity (findings r) =
        Some (map finding_of_alert (filter (in_bucket severity) items)).
Proof.
  refine (ex_intro _ _ _).
  refine ((fun Hin => conj Hin (buckets_keep_retrieval_order _ _ _ _ _ Hin)) _).
  vm_compute. left. reflexivity.
Defined.

(** A finding without a severity field goes to the Informational bucket. *)
Lemma missing_severity_informational alert rc df rc' df' :
  severity_field alert = None ->
  categorize_alert alert (rc, df) = inr (rc', df') ->
  rc' = update "Informational" (fun c => c + 1) rc /\
  df' = update "Informational" (fun l => l ++ [finding_of_alert alert]) df.
Proof.
  destruct alert as [| | | |items|fields]; try discriminate.
  unfold severity_field, categorize_alert, field, risk_key.
  intros ->. simpl.
  destruct (lookup "Informational" rc); [|discriminate].
  intros H. injection H as <- <-. auto.
Qed.

(** A finding whose severity is a string outside the four levels makes
    the loop body raise [KeyError], whatever the tables hold. *)
Lemma unrecognised_severity_KeyError fields severity rc df :
  lookup "risk" fields = Some (JStr severity) ->
  keys rc = severities ->
  ~ In severity severities ->
  categorize_alert (JObj fields) (rc, df) = inl KeyError.
Proof.
  intros Hrisk Hkeys Hnot.
  unfold categorize_alert, field, risk_key. rewrite Hrisk.
  destruct (lookup severity rc) eqn:Hl; [|reflexivity].
  exfalso. apply Hnot. rewrite <- Hkeys. apply lookup_in_keys. congruence.
Qed.

(** C3, at the failing input: one finding of severity "Critical".  Report
    generation raises [KeyError]; nothing is written and nothing is
    requested.  (A finding without severity is classified as
    Informational, see [missing_severity_informational].) *)
Theorem unrecognised_severity_aborts_report :
  generate_report scanner0
    (JObj [("alerts", JArr [alert_of "Critical" "XSS"])])
    (cooperative []) initial_state
  = (Exc (Error KeyError), initial_state, []).
Proof. vm_compute. reflexivity. Qed.

(** C7 (as the code has it): when [generate_report] has written the JSON
    report, the report is the one computed from the results and was
    written before the HTML export was requested; an answer to the HTML
    request is discarded whatever its status, and [generate_report]
    returns; an exception raised by the HTML request is not caught and
    is the outcome of [generate_report]. *)
Theorem html_export_after_json (self : Scanner) (results : json) (w : World)
    (s : State) (r : Report) :
  let x := generate_report self results w s in
  In r (written (trace x)) ->
  make_report (clock w) (target_url self) results = inr r /\
  (exists t,
     trace x = EvWrite (report_path self) r None ::
               EvGet (html_request self) (http w (requests_made s)) :: t /\
     Forall is_print t) /\
  (forall response,
     http w (requests_made s) = Responds response -> outcome x = Ret tt) /\
  (forall e,
     http w (requests_made s) = Fails e -> outcome x = Exc (Error e)).
Proof.
  cbv zeta. intros Hin.
  pose proof (generate_report_written _ _ _ _ _ Hin) as [Hrep _].
  split; [exact Hrep|].
  pose proof (generate_report_run self results w s) as H.
  rewrite Hrep in H.
  destruct (file_write w) as [e|]; [rewrite H in Hin; contradiction|].
  destruct (http w (requests_made s)) as [resp|e].
  - destruct H as (t & -> & Hp).
    split; [exists t; auto|].
    split; [reflexivity | discriminate].
  - rewrite H.
    split; [exists []; auto|].
    split; [discriminate|]. intros e' He. now injection He as <-.
Qed.

(** C7, witness: the connection drops when the HTML report is asked
    for; the JSON report is on disk and [ConnectionError] is raised. *)
Lemma html_export_after_json_witness :
  let results := JObj [("alerts", JArr [alert_of "High" "XSS"])] in
  let x := generate_report scanner0 results unreachable initial_state in
  exists r,
    In r (written (trace x)) /\
    (make_report (clock unreachable) (target_url scanner0) results = inr r /\
     (exists t,
        trace x = EvWrite (report_path scanner0) r None ::
                  EvGet (html_request scanner0)
                        (http unreachable (requests_made initial_state)) :: t /\
        Forall is_print t) /\
     (forall response,
        http unreachable (requests_made initial_state) = Responds response ->
        outcome x = Ret tt) /\
     (forall e,
        http unreachable (requests_made initial_state) = Fails e ->
        outcome x = Exc (Error e))).
Proof.
  cbv zeta.
  refine (ex_intro _ _ _).
  refine ((fun Hin => conj Hin (html_export_after_json _ _ _ _ _ Hin)) _).
  vm_compute. left. reflexivity.
Defined.

(** C7, counterexample: every step succeeds and the JSON report is
    written, then the connection drops when the HTML report is asked for.
    The error is not ignored: [generate_report] raises it, the run ends
    with [ConnectionError] and the process exits with code 1. *)
Lemma html_export_error_propagates :
  ~ (forall (self : Scanner) (results : json) (w : World) (s : State),
        written (trace (generate_report self results w s)) <> [] ->
        outcome (generate_report self results w s) = Ret tt) /\
  let x := main ["zap-baseline-scan.py"; "http://localhost:3000"] 1
             (html_export_down [alert_of "High" "XSS"]) initial_state in
  length (written (trace x)) = 1%nat /\
  outcome x = Exc (Error ConnectionError) /\
  exit_code (outcome x) = Some 1.
Proof.
  split; [|vm_compute; repeat split; reflexivity].
  intros H.
  specialize (H scanner0 (JObj [("alerts", JArr [alert_of "High" "XSS"])])
                unreachable initial_state).
  assert (Hraise : outcome (generate_report scanner0
                              (JObj [("alerts", JArr [alert_of "High" "XSS"])])
                              unreachable initial_state)
                   = Exc (Error ConnectionError)) by (vm_compute; reflexivity).
  rewrite Hraise in H.
  enough (@Exc unit (Error ConnectionError) = Ret tt) by discriminate.
  apply H. vm_compute. discriminate.
Qed.

(** ** What the scan steps send *)

Lemma emits_weaken (P Q : event -> Prop) {A} (m : M A) :
  (forall ev, P ev -> Q ev) -> emits P m -> emits Q m.
Proof.
  intros H Hm w s. destruct (Hm w s) as [Ht Hs].
  split; [eapply Forall_impl; [exact H | exact Ht] | exact Hs].
Qed.

Lemma talks_to_incl urls urls' ev :
  incl urls urls' -> talks_to urls ev -> talks_to urls' ev.
Proof. intros H. destruct ev; simpl; auto. Qed.

Ltac emits_rules :=
  repeat first
    [ apply emits_ret | apply emits_raise | apply emits_diverge
    | apply emits_lift | apply emits_sys_exit | apply emits_time_strftime
    | apply emits_time_sleep | apply emits_print
    | apply emits_requests_get; intro
    | apply emits_write_json; intro
    | apply emits_if
    | apply emits_bind; [|intro] ];
  try (simpl; tauto).

Section ScanEvents.
Variable self : Scanner.

Lemma has_auth_talks : emits (talks_to [health_url self]) (has_auth self).
Proof.
  unfold has_auth. apply emits_try_except.
  - emits_rules.
  - intros r h H. injection H as <-. emits_rules.
Qed.

Lemma configure_zap_talks :
  emits (talks_to [include_in_context_url self; health_url self])
        (configure_zap self).
Proof.
  unfold configure_zap. apply emits_bind; [emits_rules|intros _].
  apply emits_bind; [|intros b; emits_rules].
  eapply emits_weaken; [|apply has_auth_talks].
  intros ev. apply talks_to_incl. intros u [<-|[]]. simpl. tauto.
Qed.

Lemma spider_wait_talks scan_id fuel :
  emits (talks_to [spider_status_url self]) (spider_wait self scan_id fuel).
Proof.
  induction fuel as [|k IH]; cbn [spider_wait]; [apply emits_diverge|].
  apply emits_bind; [emits_rules|intros response].
  apply emits_bind; [emits_rules|intros status].
  apply emits_if; [emits_rules|].
  apply emits_bind; [emits_rules|intros _; exact IH].
Qed.

Lemma run_spider_scan_talks fuel :
  emits (talks_to [spider_scan_url self; spider_status_url self])
        (run_spider_scan self fuel).
Proof.
  unfold run_spider_scan. apply emits_bind; [emits_rules|intros response].
  apply emits_bind; [emits_rules|intros scan_id].
  apply emits_bind; [|intros _; emits_rules].
  eapply emits_weaken; [|apply spider_wait_talks].
  intros ev. apply talks_to_incl. intros u [<-|[]]. simpl. tauto.
Qed.

Lemma ascan_wait_talks scan_id fuel :
  emits (talks_to [ascan_status_url self]) (ascan_wait self scan_id fuel).
Proof.
  induction fuel as [|k IH]; cbn [ascan_wait]; [apply emits_diverge|].
  apply emits_bind; [emits_rules|intros response].
  apply emits_bind; [emits_rules|intros status].
  apply emits_if; [emits_rules|].
  apply emits_bind; [emits_rules|intros _].
  apply emits_bind; [emits_rules|intros _; exact IH].
Qed.

Lemma run_active_scan_talks fuel :
  emits (talks_to [ascan_scan_url self; ascan_status_url self])
        (run_active_scan self fuel).
Proof.
  unfold run_active_scan. apply emits_bind; [emits_rules|intros response].
  apply emits_bind; [emits_rules|intros scan_id].
  apply emits_bind; [|intros _; emits_rules].
  eapply emits_weaken; [|apply ascan_wait_talks].
  intros ev. apply talks_to_incl. intros u [<-|[]]. simpl. tauto.
Qed.

Lemma get_scan_results_talks :
  emits (talks_to [alerts_url self]) (get_scan_results self).
Proof. unfold get_scan_results. emits_rules. Qed.

Lemma print_counts_talks urls risk_counts :
  emits (talks_to urls) (print_counts risk_counts).
Proof.
  induction risk_counts as [|[risk count] rest IH]; cbn [print_counts];
    [apply emits_ret|].
  apply emits_bind; [emits_rules | intros _; exact IH].
Qed.

Lemma generate_report_talks results :
  emits (talks_to [html_report_url self]) (generate_report self results).
Proof.
  unfold generate_report.
  apply emits_bind; [emits_rules|intros now].
  apply emits_bind; [emits_rules|intros report].
  apply emits_bind; [emits_rules|intros _].
  apply emits_bind; [emits_rules|intros _].
  apply emits_bind; [emits_rules|intros _].
  apply print_counts_talks.
Qed.

(** The scan steps only talk to the scan endpoints: they neither spawn
    nor stop the engine. *)
Lemma scan_steps_talks fuel :
  emits (talks_to (scan_urls self)) (scan_steps self fuel).
Proof.
  assert (Hweak : forall urls A (m : M A),
             incl urls (scan_urls self) ->
             emits (talks_to urls) m -> emits (talks_to (scan_urls self)) m).
  { intros urls A m Hincl. apply emits_weaken.
    intros ev. now apply talks_to_incl. }
  unfold scan_steps.
  apply emits_bind; [emits_rules|intros _].
  apply emits_bind;
    [eapply Hweak; [|apply configure_zap_talks]|intros _].
  { intros u. simpl. tauto. }
  apply emits_bind; [emits_rules|intros _].
  apply emits_bind;
    [eapply Hweak; [|apply run_spider_scan_talks]|intros _].
  { intros u. simpl. tauto. }
  apply emits_bind; [emits_rules|intros _].
  apply emits_bind;
    [eapply Hweak; [|apply run_active_scan_talks]|intros _].
  { intros u. simpl. tauto. }
  apply emits_bind; [emits_rules|intros _].
  apply emits_bind;
    [eapply Hweak; [|apply get_scan_results_talks]|intros results].
  { intros u. simpl. tauto. }
  eapply Hweak; [|apply generate_report_talks].
  intros u. simpl. tauto.
Qed.
End ScanEvents.

(** ** The whole run (run_full_scan) *)

Lemma shutdown_run self w s :
  shutdown self w s =
  (Ret tt, s,
   EvPrint [Lit "Stopping ZAP..."] ::
   if has_zap_process s then [EvTerminate; EvWait] else []).
Proof.
  unfold shutdown, bind, print, emit, stop_zap.
  now destruct (has_zap_process s).
Qed.

(** [run_full_scan] in terms of its parts: the exit when the engine did
    not start is taken before the [try] is entered. *)
Lemma run_full_scan_eq self fuel w s :
  run_full_scan self fuel w s =
  let hello :=
    EvPrint [Lit "Starting security scan for "; Lit (target_url self)] in
  match start_zap_daemon self w s with
  | (Ret true, s1, t1) =>
      let '(r, s2, t2) :=
        try_finally (scan_steps self fuel) (shutdown self) w s1 in
      (r, s2, hello :: t1 ++ t2)
  | (Ret false, s1, t1) =>
      (Exc (SystemExit 1), s1,
       hello :: t1 ++ [EvPrint [Lit "Failed to start ZAP daemon"]])
  | (Exc r, s1, t1) => (Exc r, s1, hello :: t1)
  | (Diverge, s1, t1) => (Diverge, s1, hello :: t1)
  end.
Proof.
  unfold run_full_scan, bind, print, emit, sys_exit, raise, ret.
  destruct (start_zap_daemon self w s) as [[[[|]|r|] s1] t1]; cbn;
    try reflexivity.
  destruct (try_finally (scan_steps self fuel) (shutdown self) w s1)
    as [[r s2] t2].
  reflexivity.
Qed.

(** When [start_zap_daemon] returns [True] the process was spawned and
    the instance holds it. *)
Lemma start_zap_daemon_true self w s :
  outcome (start_zap_daemon self w s) = Ret true ->
  has_zap_process (final_state (start_zap_daemon self w s)) = true /\
  spawned (trace (start_zap_daemon self w s)) = true /\
  count_terminate (trace (start_zap_daemon self w s)) = 0%nat /\
  count_wait (trace (start_zap_daemon self w s)) = 0%nat.
Proof.
  rewrite start_zap_daemon_eq.
  destruct (popen w) as [e|]; [discriminate|].
  set (s1 := {| requests_made := requests_made s; has_zap_process := true |}).
  pose proof (poll_version_state self max_attempts w s1) as Hst.
  pose proof (poll_version_trace self max_attempts w s1) as Htr.
  cbv zeta in Htr.
  destruct (poll_version self max_attempts w s1) as [[[b|[e|c]|] s2] t];
    try discriminate.
  unfold outcome, final_state, trace in *. cbn [fst snd] in *.
  destruct Htr as (_ & _ & _ & _ & Hterm & Hwait & _).
  intros _. split; [exact Hst|]. split; [reflexivity|].
  unfold count_terminate, count_wait in *. cbn [filter]. auto.
Qed.

Lemma talks_to_no_shutdown urls t :
  Forall (talks_to urls) t ->
  count_terminate t = 0%nat /\ count_wait t = 0%nat /\ spawned t = false.
Proof.
  induction 1 as [|ev t Hev _ IH]; [now cbn|].
  destruct ev; try contradiction; exact IH.
Qed.

(** Once the engine is ready, every exit of the run, by return or by an
    exception of any step, terminates the engine and waits for it exactly
    once, as the last thing the run does. *)
Lemma started_run_stops_once self fuel w s :
  outcome (start_zap_daemon self w s) = Ret true ->
  outcome (run_full_scan self fuel w s) <> Diverge ->
  count_terminate (trace (run_full_scan self fuel w s)) = 1%nat /\
  count_wait (trace (run_full_scan self fuel w s)) = 1%nat /\
  exists t, trace (run_full_scan self fuel w s) = t ++ [EvTerminate; EvWait].
Proof.
  intros Hstart.
  destruct (start_zap_daemon_true _ _ _ Hstart) as (Hproc & _ & Hterm & Hwait).
  rewrite run_full_scan_eq. cbv zeta.
  destruct (start_zap_daemon self w s) as [[r s1] t1].
  unfold outcome, final_state, trace in Hstart, Hproc, Hterm, Hwait.
  cbn [fst snd] in Hstart, Hproc, Hterm, Hwait. subst r.
  destruct (scan_steps_talks self fuel w s1) as [Hsteps Hkeep].
  specialize (Hkeep Hproc).
  apply talks_to_no_shutdown in Hsteps as (Hterm2 & Hwait2 & _).
  unfold try_finally, outcome, final_state, trace in *.
  destruct (scan_steps self fuel w s1) as [[[u|r|] s2] t2];
    cbn [fst snd] in *;
    try (rewrite shutdown_run, Hkeep; cbn [fst snd]; intros _;
         split; [|split];
         [ unfold count_terminate in *; cbn [filter];
           rewrite !filter_app, !length_app, Hterm, Hterm2; reflexivity
         | unfold count_wait in *; cbn [filter];
           rewrite !filter_app, !length_app, Hwait, Hwait2; reflexivity
         | exists (EvPrint [Lit "Starting security scan for ";
                            Lit (target_url self)]
                   :: t1 ++ t2 ++ [EvPrint [Lit "Stopping ZAP..."]]);
           cbn [app]; rewrite <- !app_assoc; reflexivity ]).
  intros H. now contradiction H.
Qed.

(** When the engine did not become ready the run leaves with
    [sys.exit(1)] and stops nothing, also when the process was spawned. *)
Lemma unready_run_stops_nothing self fuel w s :
  outcome (start_zap_daemon self w s) = Ret false ->
  outcome (run_full_scan self fuel w s) = Exc (SystemExit 1) /\
  count_terminate (trace (run_full_scan self fuel w s)) = 0%nat /\
  count_wait (trace (run_full_scan self fuel w s)) = 0%nat /\
  (popen w = None -> spawned (trace (run_full_scan self fuel w s)) = true).
Proof.
  intros Hstart. rewrite run_full_scan_eq. cbv zeta.
  revert Hstart. rewrite start_zap_daemon_eq.
  destruct (popen w) as [e|].
  - intros _. cbn. repeat split; auto. discriminate.
  - set (s1 := {| requests_made := requests_made s; has_zap_process := true |}).
    pose proof (poll_version_trace self max_attempts w s1) as Htr.
    cbv zeta in Htr.
    destruct (poll_version self max_attempts w s1) as [[[[|]|[e|c]|] s2] t];
      try discriminate; intros _;
      unfold outcome, trace in *; cbn [fst snd] in *;
      destruct Htr as (_ & _ & _ & _ & Hterm & Hwait & _);
      (split; [reflexivity|]);
      unfold count_terminate, count_wait in *;
      repeat (cbn [app filter length] || rewrite filter_app
              || rewrite length_app);
      rewrite Hterm, Hwait;
      repeat split; reflexivity.
Qed.

(** C1, at the failing input: the engine process is spawned and then
    refuses every connection.  The run ends with [sys.exit(1)] before the
    [try] whose [finally] stops the engine: the process is never
    terminated nor waited for.  (After a successful start the engine is
    stopped exactly once on every exit, see [started_run_stops_once].) *)
Theorem spawned_engine_not_stopped_when_unready :
  let x := run_full_scan scanner0 5 unreachable initial_state in
  spawned (trace x) = true /\
  outcome x = Exc (SystemExit 1) /\
  count_terminate (trace x) = 0%nat /\
  count_wait (trace x) = 0%nat /\
  has_zap_process (final_state x) = true.
Proof. vm_compute. repeat split; reflexivity. Qed.

(** ** Endpoints are distinct *)

Lemma append_eqb_cancel (p a b : string) :
  String.eqb (p ++ a) (p ++ b) = String.eqb a b.
Proof.
  induction p as [|c p IH]; [reflexivity|].
  simpl. now rewrite Ascii.eqb_refl.
Qed.

Lemma last_char_append (a b : string) :
  b <> EmptyString -> last_char (a ++ b) = last_char b.
Proof.
  intros Hb. induction a as [|c a IH]; [reflexivity|].
  simpl. rewrite IH.
  destruct (a ++ b)%string eqn:E; [|reflexivity].
  destruct a; simpl in E; [contradiction | discriminate].
Qed.

(** The health endpoint of the target is none of the engine's endpoints,
    whatever the target URL is: these end with a slash. *)
Lemma health_url_not_engine self (path : string) :
  last_char path = Some "/"%char ->
  String.eqb (health_url self) (base_url self ++ path) = false.
Proof.
  intros Hpath. apply String.eqb_neq. intros Heq.
  apply (f_equal last_char) in Heq.
  unfold health_url in Heq.
  rewrite last_char_append in Heq by discriminate.
  rewrite last_char_append in Heq by (destruct path; discriminate).
  rewrite Hpath in Heq. discriminate.
Qed.

Ltac distinct_urls :=
  unfold version_url, include_in_context_url, spider_scan_url,
    spider_status_url, ascan_scan_url, ascan_status_url, alerts_url,
    html_report_url;
  first [ rewrite append_eqb_cancel; reflexivity
        | apply health_url_not_engine; reflexivity ].

(** ** Discovery before probing *)

Section Ordering.
Variable self : Scanner.

Lemma discovery_complete_app c t1 t2 :
  discovery_complete self c (t1 ++ t2) =
  discovery_complete self (discovery_complete self c t1) t2.
Proof.
  revert c. induction t1 as [|ev t1 IH]; intros c; [reflexivity|].
  cbn [app discovery_complete]. apply IH.
Qed.

Lemma probing_guarded_app c t1 t2 :
  probing_guarded self c (t1 ++ t2) =
  probing_guarded self c t1 &&
  probing_guarded self (discovery_complete self c t1) t2.
Proof.
  revert c. induction t1 as [|ev t1 IH]; intros c; [reflexivity|].
  cbn [app probing_guarded discovery_complete].
  rewrite IH. now rewrite andb_assoc.
Qed.

Lemma quiet_trace c t :
  Forall (quiet self) t ->
  probing_guarded self c t = true /\ discovery_complete self c t = c.
Proof.
  induction 1 as [|ev t [Ha Hs] _ IH]; [now split|].
  cbn [probing_guarded discovery_complete]. rewrite Ha, Hs. exact IH.
Qed.

(** A trace whose requests avoid the two endpoints is quiet. *)
Lemma quiet_requested t :
  Forall (fun u => String.eqb u (ascan_scan_url self) = false /\
                   String.eqb u (spider_status_url self) = false)
         (requested t) ->
  Forall (quiet self) t.
Proof.
  induction t as [|ev t IH]; intros H; [constructor|].
  destruct ev; cbn [requested] in H;
    try (constructor; [now split | now apply IH]).
  inversion H as [|? ? Hu Hrest]; subst.
  constructor; [exact Hu | now apply IH].
Qed.

Lemma talks_to_requested urls t :
  Forall (talks_to urls) t -> Forall (fun u => In u urls) (requested t).
Proof.
  induction 1 as [|ev t Hev _ IH]; [constructor|].
  destruct ev; cbn [requested]; try exact IH.
  constructor; [exact Hev | exact IH].
Qed.

Lemma talks_to_quiet urls t :
  Forall (fun u => String.eqb u (ascan_scan_url self) = false /\
                   String.eqb u (spider_status_url self) = false) urls ->
  Forall (talks_to urls) t -> Forall (quiet self) t.
Proof.
  intros Hurls Ht. apply quiet_requested.
  apply talks_to_requested in Ht.
  rewrite Forall_forall in *. auto.
Qed.

Lemma tracks_quiet {A} (m : M A) urls c :
  Forall (fun u => String.eqb u (ascan_scan_url self) = false /\
                   String.eqb u (spider_status_url self) = false) urls ->
  emits (talks_to urls) m -> tracks self c c m.
Proof.
  intros Hurls Hm w s. destruct (Hm w s) as [Ht _].
  destruct (quiet_trace c _ (talks_to_quiet _ _ Hurls Ht)) as [Hg Hd].
  split; [exact Hg | intros _ _; exact Hd].
Qed.

Lemma tracks_bind {A B} (m : M A) (f : A -> M B) c c1 c2 :
  tracks self c c1 m -> (forall a, tracks self c1 c2 (f a)) ->
  tracks self c c2 (bind m f).
Proof.
  intros Hm Hf w s. destruct (Hm w s) as [Hg Hd].
  rewrite trace_bind, outcome_bind, probing_guarded_app,
    discovery_complete_app, Hg.
  destruct (outcome (m w s)) as [a|r|]; cbn [andb].
  - rewrite (Hd a eq_refl). apply Hf.
  - split; [reflexivity | discriminate].
  - split; [reflexivity | discriminate].
Qed.

(** One turn of the spider loop. *)
Lemma spider_wait_S scan_id k w s :
  spider_wait self scan_id (S k) w s =
  let ev := EvGet (request (spider_status_url self) [("scanId", scan_id)])
                  (http w (requests_made s)) in
  match http w (requests_made s) with
  | Fails e => (Exc (Error e), sent s, [ev])
  | Responds r =>
      match response_item r "status" with
      | inl e => (Exc (Error e), sent s, [ev])
      | inr status =>
          if is_100 status then (Ret tt, sent s, [ev])
          else
            let '(r', s', t') := spider_wait self scan_id k w (sent s) in
            (r', s', ev :: EvSleep 2 :: t')
      end
  end.
Proof.
  cbn [spider_wait]. unfold bind, requests_get, lift, raise, ret,
    time_sleep, emit.
  destruct (http w (requests_made s)) as [r|e]; [|reflexivity].
  destruct (response_item r "status") as [e|status]; [reflexivity|].
  destruct (is_100 status); [reflexivity|].
  now destruct (spider_wait self scan_id k w (sent s)) as [[r' s'] t'].
Qed.

(** The spider loop never starts the active scan, and when it returns
    the last status it saw was ['100']. *)
Lemma spider_wait_tracks scan_id fuel : forall c,
  tracks self c true (spider_wait self scan_id fuel).
Proof.
  assert (Hnot : String.eqb (spider_status_url self) (ascan_scan_url self)
                 = false) by distinct_urls.
  induction fuel as [|k IH]; intros c w s.
  - split; [reflexivity | discriminate].
  - rewrite spider_wait_S. cbv zeta.
    destruct (http w (requests_made s)) as [r|e].
    2:{ cbn -[spider_status_url ascan_scan_url]. rewrite Hnot.
        split; [reflexivity | discriminate]. }
    destruct (response_item r "status") as [e|status] eqn:Hitem.
    { cbn -[spider_status_url ascan_scan_url]. rewrite Hnot.
      split; [reflexivity | discriminate]. }
    destruct (is_100 status) eqn:H100.
    + cbn -[response_item spider_status_url ascan_scan_url].
      rewrite Hnot, String.eqb_refl, Hitem, H100.
      split; reflexivity.
    + destruct (IH false w (sent s)) as [Hg Hd].
      destruct (spider_wait self scan_id k w (sent s)) as [[r' s'] t'].
      unfold trace, outcome in *.
      cbn -[response_item spider_status_url ascan_scan_url] in *.
      rewrite Hnot, String.eqb_refl, Hitem, H100.
      cbn [andb]. split; [exact Hg | exact Hd].
Qed.

Lemma tracks_silent {A} (m : M A) c :
  emits (talks_to []) m -> tracks self c c m.
Proof. apply tracks_quiet. constructor. Qed.

Lemma tracks_get u params c :
  String.eqb u (ascan_scan_url self) = false ->
  String.eqb u (spider_status_url self) = false ->
  tracks self c c (requests_get (request u params)).
Proof.
  intros Ha Hs. apply (tracks_quiet _ [u]); [auto|].
  apply emits_requests_get. intros out. simpl. auto.
Qed.

Lemma run_spider_scan_tracks fuel c :
  tracks self c true (run_spider_scan self fuel).
Proof.
  unfold run_spider_scan.
  eapply tracks_bind; [apply tracks_get; distinct_urls | intros response].
  eapply tracks_bind; [apply tracks_silent, emits_lift | intros scan_id].
  eapply tracks_bind; [apply spider_wait_tracks | intros _].
  apply tracks_silent, emits_ret.
Qed.

(** The active scan is safe to start once discovery is complete, and it
    asks for no spider status. *)
Lemma run_active_scan_tracks fuel :
  tracks self true true (run_active_scan self fuel).
Proof.
  unfold run_active_scan.
  eapply (tracks_bind _ _ true true).
  - intros w s. unfold requests_get.
    assert (Hnot : String.eqb (ascan_scan_url self) (spider_status_url self)
                   = false) by distinct_urls.
    destruct (http w (requests_made s));
      cbn -[spider_status_url ascan_scan_url];
      rewrite Hnot, String.eqb_refl; split; reflexivity || discriminate.
  - intros response.
    eapply tracks_bind; [apply tracks_silent, emits_lift | intros scan_id].
    eapply tracks_bind; [|intros _; apply tracks_silent, emits_ret].
    apply (tracks_quiet _ [ascan_status_url self]);
      [|apply ascan_wait_talks].
    constructor; [split; distinct_urls | constructor].
Qed.

Lemma scan_steps_tracks fuel c : tracks self c true (scan_steps self fuel).
Proof.
  unfold scan_steps.
  eapply tracks_bind; [apply tracks_silent; emits_rules | intros _].
  eapply tracks_bind; [|intros _].
  { apply (tracks_quiet _ [include_in_context_url self; health_url self]);
      [|apply configure_zap_talks].
    repeat (constructor; [split; distinct_urls|]). constructor. }
  eapply tracks_bind; [apply tracks_silent; emits_rules | intros _].
  eapply tracks_bind; [apply run_spider_scan_tracks | intros _].
  eapply tracks_bind; [apply tracks_silent; emits_rules | intros _].
  eapply tracks_bind; [apply run_active_scan_tracks | intros _].
  eapply tracks_bind; [apply tracks_silent; emits_rules | intros _].
  eapply tracks_bind; [|intros results].
  { apply (tracks_quiet _ [alerts_url self]);
      [|apply get_scan_results_talks].
    repeat (constructor; [split; distinct_urls|]). constructor. }
  apply (tracks_quiet _ [html_report_url self]);
    [|apply generate_report_talks].
  repeat (constructor; [split; distinct_urls|]). constructor.
Qed.

Lemma start_zap_daemon_quiet w s :
  Forall (quiet self) (trace (start_zap_daemon self w s)).
Proof.
  apply quiet_requested.
  destruct (start_zap_daemon_trace self w s) as (_ & Hall & _).
  eapply Forall_impl; [|exact Hall].
  intros u ->. split; distinct_urls.
Qed.

Lemma shutdown_quiet w s : Forall (quiet self) (trace (shutdown self w s)).
Proof.
  rewrite shutdown_run. cbn [trace snd].
  destruct (has_zap_process s); repeat constructor.
Qed.

Lemma probing_guarded_print c msg t :
  probing_guarded self c (EvPrint msg :: t) = probing_guarded self c t.
Proof. reflexivity. Qed.

(** No run of [run_full_scan] fails the engine double. *)
Lemma run_full_scan_guarded fuel w s :
  probing_guarded self false (trace (run_full_scan self fuel w s)) = true.
Proof.
  rewrite run_full_scan_eq. cbv zeta.
  pose proof (start_zap_daemon_quiet w s) as Hstart.
  destruct (start_zap_daemon self w s) as [[[[|]|r|] s1] t1];
    cbn [trace snd] in Hstart;
    destruct (quiet_trace false _ Hstart) as [Hg1 Hd1].
  - pose proof (trace_try_finally (scan_steps self fuel) (shutdown self) w s1)
      as Htr.
    destruct (scan_steps_tracks fuel false w s1) as [Hg _].
    destruct (try_finally (scan_steps self fuel) (shutdown self) w s1)
      as [[r s2] t2].
    cbn [trace snd] in Htr |- *. subst t2.
    rewrite probing_guarded_print, !probing_guarded_app, Hg1, Hd1, Hg.
    cbn [andb].
    destruct (outcome (scan_steps self fuel w s1));
      [apply quiet_trace, shutdown_quiet
      |apply quiet_trace, shutdown_quiet
      |reflexivity].
  - cbn [trace snd].
    rewrite probing_guarded_print, !probing_guarded_app, Hg1, Hd1.
    reflexivity.
  - cbn [trace snd]. now rewrite probing_guarded_print.
  - cbn [trace snd]. now rewrite probing_guarded_print.
Qed.

(** When discovery counts as complete after [t], either it did before
    and [t] asks for no spider status, or [t] holds an answer with
    status ['100'] after which no spider status is asked for. *)
Lemma discovery_complete_split t : forall c,
  discovery_complete self c t = true ->
  (c = true /\
   Forall (fun e => is_get_to (spider_status_url self) e = false) t) \/
  exists pre1 e pre2,
    t = pre1 ++ e :: pre2 /\
    observes_spider_complete self e = true /\
    Forall (fun e' => is_get_to (spider_status_url self) e' = false) pre2.
Proof.
  induction t as [|ev t IH]; intros c H.
  - left. split; [exact H | constructor].
  - cbn [discovery_complete] in H.
    destruct (is_get_to (spider_status_url self) ev) eqn:Hstatus.
    + destruct (IH _ H) as [[Hobs Hall]|(pre1 & e & pre2 & -> & He & Hall)].
      * right. exists [], ev, t. auto.
      * right. exists (ev :: pre1), e, pre2. auto.
    + destruct (IH _ H) as [[Hc Hall]|(pre1 & e & pre2 & -> & He & Hall)].
      * left. split; [exact Hc | constructor; assumption].
      * right. exists (ev :: pre1), e, pre2. auto.
Qed.
End Ordering.

(** C4: in every run, finished or not, an active-scan start request is
    preceded by an answer of the engine to a spider status request that
    reported status ['100'], and no spider status is asked for between
    that answer and the active-scan start: the last discovery status seen
    before probing is submitted is complete. *)
Theorem probing_after_discovery (self : Scanner) (fuel : nat) (w : World)
    (s : State) (pre : list event) (ev : event) (post : list event) :
  trace (run_full_scan self fuel w s) = pre ++ ev :: post ->
  is_get_to (ascan_scan_url self) ev = true ->
  exists pre1 e pre2,
    pre = pre1 ++ e :: pre2 /\
    observes_spider_complete self e = true /\
    Forall (fun e' => is_get_to (spider_status_url self) e' = false) pre2.
Proof.
  intros Htrace Hev.
  pose proof (run_full_scan_guarded self fuel w s) as Hg.
  rewrite Htrace, probing_guarded_app in Hg.
  apply andb_prop in Hg as [_ Hg].
  cbn [probing_guarded] in Hg. rewrite Hev in Hg.
  apply andb_prop in Hg as [Hc _].
  destruct (discovery_complete_split self pre false Hc) as [[Hf _]|H];
    [discriminate | exact H].
Qed.

(** C4, witness: the run against a cooperative engine, cut at its
    active-scan start request. *)
Lemma probing_after_discovery_witness :
  exists pre1 e pre2,
    firstn 10 (trace (run_full_scan scanner0 1 (cooperative []) initial_state))
      = pre1 ++ e :: pre2 /\
    observes_spider_complete scanner0 e = true /\
    Forall (fun e' => is_get_to (spider_status_url scanner0) e' = false) pre2.
Proof.
  apply (probing_after_discovery scanner0 1 (cooperative []) initial_state
           (firstn 10 (trace (run_full_scan scanner0 1 (cooperative [])
                                initial_state)))
           (nth 10 (trace (run_full_scan scanner0 1 (cooperative [])
                             initial_state)) EvWait)
           (skipn 11 (trace (run_full_scan scanner0 1 (cooperative [])
                               initial_state)))).
  - vm_compute. reflexivity.
  - vm_compute. reflexivity.
Defined.

(** ** The command line (main) *)

Lemma main_eq prog target rest fuel w s :
  main (prog :: target :: rest) fuel w s =
  let api := match rest with [] => None | a :: _ => Some a end in
  match makedirs w with
  | Some e => (Exc (Error e), s, [EvMakedirs "security/results" (Some e)])
  | None =>
      let '(r, s', t) := run_full_scan (scanner_of target api) fuel w s in
      (r, s', EvMakedirs "security/results" None :: t)
  end.
Proof.
  unfold main, init, bind, os_makedirs, ret. cbn [length Nat.ltb Nat.leb nth].
  destruct rest as [|a rest]; cbn [length Nat.ltb Nat.leb nth];
    destruct (makedirs w); try reflexivity;
    now destruct (run_full_scan _ fuel w s) as [[r s'] t].
Qed.

(** Without a target URL [main] prints its usage and exits with 1. *)
Lemma main_usage prog fuel w s :
  main [prog] fuel w s =
  (Exc (SystemExit 1), s,
   [EvPrint [Lit "Usage: python zap-baseline-scan.py <target-url> [api-url]"]]).
Proof. reflexivity. Qed.

(** Against a cooperative engine the run completes, whatever the number
    of findings, and writes their report. *)
Lemma main_cooperative prog target alerts fuel :
  Forall recognised alerts ->
  let x := main [prog; target] (S fuel) (cooperative alerts) initial_state in
  outcome x = Ret tt /\
  exists r, written (trace x) = [r] /\
            total_alerts r = Z.of_nat (length alerts).
Proof.
  intros Hall.
  destruct (make_report_recognised (clock (cooperative alerts)) target
              (JObj [("alerts", JArr alerts)]) alerts eq_refl Hall) as (r & Hr).
  assert (Htotal : total_alerts r = Z.of_nat (length alerts)).
  { apply make_report_inr in Hr as (a & items & Hget & _ & _ & Hlen & _).
    cbn in Hget. injection Hget as <-. cbn in Hlen. now injection Hlen. }
  cbv -[make_report] in Hr.
  cbv -[make_report print_counts summary total_alerts written].
  rewrite Hr.
  match goal with
  | |- context [print_counts ?d ?w ?s] =>
      destruct (print_counts_run d w s) as (t & Ht & Hp); rewrite Ht
  end.
  split; [reflexivity|].
  exists r. split; [|exact Htotal].
  cbn [written].
  change (r :: written (t ++ [EvPrint [Lit "Stopping ZAP..."];
                              EvTerminate; EvWait]) = [r]).
  now rewrite written_app, (written_prints _ Hp).
Qed.

(** C8: when the engine fails to start or to become ready, the process
    exits with code 1 and has sent nothing but readiness requests (no
    scope or scan step ran); a run that completes exits with code 0, and
    runs complete for any number of findings. *)
Theorem exit_codes (prog target : string) (rest : list string) (fuel : nat)
    (w : World) (s : State) (alerts : list json) :
  let self :=
    scanner_of target (match rest with [] => None | a :: _ => Some a end) in
  let x := main (prog :: target :: rest) fuel w s in
  let y := main [prog; target] (S fuel) (cooperative alerts) initial_state in
  (makedirs w = None ->
   outcome (start_zap_daemon self w s) = Ret false ->
   exit_code (outcome x) = Some 1 /\
   Forall (fun u => u = version_url self) (requested (trace x))) /\
  (outcome x = Ret tt -> exit_code (outcome x) = Some 0) /\
  (Forall recognised alerts ->
   exit_code (outcome y) = Some 0 /\
   exists r, written (trace y) = [r] /\
             total_alerts r = Z.of_nat (length alerts)).
Proof.
  cbv zeta. split; [|split].
  - intros Hmk Hstart.
    rewrite main_eq. cbv zeta. rewrite Hmk.
    pose proof (unready_run_stops_nothing _ fuel _ _ Hstart) as (Hout & _).
    pose proof (start_zap_daemon_trace
                  (scanner_of target
                     match rest with [] => None | a :: _ => Some a end) w s)
      as (_ & Hall & _).
    revert Hout. rewrite run_full_scan_eq. cbv zeta.
    destruct (start_zap_daemon _ w s) as [[[[|]|r|] s1] t1];
      try discriminate.
    unfold outcome, trace in *. cbn [fst snd] in *. intros _.
    split; [reflexivity|].
    cbn [requested]. rewrite requested_app, app_nil_r. exact Hall.
  - now intros ->.
  - intros Hall.
    destruct (main_cooperative prog target alerts fuel Hall) as [Hout Hrep].
    rewrite Hout. split; [reflexivity | exact Hrep].
Qed.

(** C8, witness: an engine that never answers, and an engine that
    reports two findings. *)
Lemma exit_codes_witness :
  (exit_code (outcome (main ["zap-baseline-scan.py"; "http://localhost:3000"]
                         1 unreachable initial_state)) = Some 1 /\
   Forall (fun u => u = version_url (scanner_of "http://localhost:3000" None))
          (requested (trace (main ["zap-baseline-scan.py";
                                   "http://localhost:3000"]
                               1 unreachable initial_state)))) /\
  (exit_code (outcome (main ["zap-baseline-scan.py"; "http://localhost:3000"]
                         2 (cooperative [alert_of "High" "XSS";
                                         alert_of "Low" "Cookie"])
                         initial_state)) = Some 0 /\
   exists r,
     written (trace (main ["zap-baseline-scan.py"; "http://localhost:3000"]
                       2 (cooperative [alert_of "High" "XSS";
                                       alert_of "Low" "Cookie"])
                       initial_state)) = [r] /\
     total_alerts r = 2).
Proof.
  destruct (exit_codes "zap-baseline-scan.py" "http://localhost:3000" [] 1
              unreachable initial_state
              [alert_of "High" "XSS"; alert_of "Low" "Cookie"])
    as (Hfail & _ & Hdone).
  split.
  - apply Hfail; vm_compute; reflexivity.
  - apply Hdone. repeat constructor; simpl; tauto.
Defined.

(** ** The default API URL (__init__) *)

Lemma drop_nil n : drop n "" = "".
Proof. now destruct n. Qed.

Lemma length_append (a b : string) :
  String.length (a ++ b) = (String.length a + String.length b)%nat.
Proof. induction a; simpl; congruence. Qed.

Lemma prefix_split (p s : string) :
  prefix p s = true -> exists rest, s = (p ++ rest)%string.
Proof.
  revert s. induction p as [|a p IH]; intros s H.
  - now exists s.
  - destruct s as [|c s]; [discriminate|].
    simpl in H. destruct (ascii_dec a c) as [->|]; [|discriminate].
    destruct (IH _ H) as (rest & ->). now exists rest.
Qed.

Lemma prefix_append (p s : string) : prefix p (p ++ s) = true.
Proof.
  induction p as [|a p IH]; [now destruct s|].
  simpl. now destruct (ascii_dec a a).
Qed.

(** [old in s] says that [old] occurs somewhere in [s]. *)
Lemma contains_occurs (old s : string) :
  contains old s = true <-> exists i, occurs_at old s i.
Proof.
  unfold occurs_at. induction s as [|c s IH].
  - simpl. rewrite orb_false_r. split.
    + intros H. now exists 0%nat.
    + intros (i & H). now rewrite drop_nil in H.
  - cbn [contains]. rewrite orb_true_iff, IH. split.
    + intros [H|(i & H)]; [now exists 0%nat | now exists (S i)].
    + intros ([|i] & H); [now left | right; now exists i].
Qed.

(** Where [old] does not occur, nothing is replaced. *)
Lemma replace_absent (old new s : string) :
  contains old s = false -> replace old new s = s.
Proof.
  unfold replace. destruct old as [|a old].
  - now destruct s.
  - induction s as [|c s IH]; [reflexivity|].
    cbn [contains replace_from]. intros H.
    apply orb_false_elim in H as [-> H]. now rewrite IH.
Qed.

Section Port.
(** The one call of [replace]: [':3000'] by [':8080']. *)

(** After an occurrence of [':3000'], the scan resumes behind it. *)
Lemma replace_from_occurrence rest :
  replace_from ":3000" ":8080" 0 (":3000" ++ rest) =
  (":8080" ++ replace_from ":3000" ":8080" 0 rest)%string.
Proof. now destruct rest. Qed.

(** An occurrence of [':3000'] has no other occurrence inside it. *)
Lemma no_overlap rest i :
  (0 < i < 5)%nat -> ~ occurs_at ":3000" (":3000" ++ rest) i.
Proof.
  unfold occurs_at. intros Hi H.
  destruct i as [|[|[|[|[|i]]]]]; try lia; discriminate.
Qed.

Lemma replace_from_length s : forall k,
  (k <= 4)%nat ->
  (String.length (replace_from ":3000" ":8080" k s) = String.length s - k)%nat.
Proof.
  induction s as [|c s IH]; intros k Hk; [reflexivity|].
  cbn [replace_from]. destruct k as [|k].
  - destruct (prefix ":3000" (String c s)) eqn:Hp.
    + apply prefix_split in Hp as (rest & Hs).
      injection Hs as -> ->.
      change (String.length ":3000" - 1)%nat with 4%nat.
      rewrite length_append, IH by lia. simpl. lia.
    + simpl. rewrite IH by lia. lia.
  - rewrite IH by lia. reflexivity.
Qed.

Lemma drop_new s i :
  drop (5 + i) (":8080" ++ s) = drop i s.
Proof. reflexivity. Qed.

(** Every occurrence of [':3000'] in [s] at or after the characters still
    to be skipped is an occurrence of [':8080'] in the result. *)
Lemma replace_from_occurs s : forall k i,
  (k <= i)%nat ->
  occurs_at ":3000" s i ->
  occurs_at ":8080" (replace_from ":3000" ":8080" k s) (i - k).
Proof.
  unfold occurs_at.
  induction s as [|c s IH]; intros k i Hk Hocc.
  - now rewrite drop_nil in Hocc.
  - cbn [replace_from]. destruct k as [|k].
    + destruct (prefix ":3000" (String c s)) eqn:Hp.
      * apply prefix_split in Hp as (rest & Hs).
        change (String.length ":3000" - 1)%nat with 4%nat.
        destruct (Nat.eq_dec i 0) as [->|Hi0]; [apply prefix_append|].
        destruct (Nat.lt_ge_cases i 5) as [Hlt|Hge].
        { exfalso. rewrite Hs in Hocc.
          apply (no_overlap rest i); [lia | exact Hocc]. }
        replace (i - 0)%nat with (5 + (i - 5))%nat by lia.
        rewrite drop_new.
        replace (i - 5)%nat with ((i - 1) - 4)%nat by lia.
        apply IH; [lia|].
        destruct i as [|i]; [lia|].
        now replace (S i - 1)%nat with i by lia.
      * destruct i as [|i];
          [change (prefix ":3000" (String c s) = true) in Hocc; congruence|].
        cbn [drop Nat.sub]. specialize (IH 0%nat i ltac:(lia) Hocc).
        now rewrite Nat.sub_0_r in IH.
    + destruct i as [|i]; [lia|]. cbn [Nat.sub]. apply IH; [lia | exact Hocc].
Qed.

(** A position that no occurrence of [':3000'] covers keeps its
    character. *)
Lemma replace_from_elsewhere s : forall k i,
  (k <= 4)%nat -> (k <= i)%nat ->
  (forall j, (j <= i < j + 5)%nat -> ~ occurs_at ":3000" s j) ->
  String.get (i - k) (replace_from ":3000" ":8080" k s) = String.get i s.
Proof.
  induction s as [|c s IH]; intros k i Hk4 Hk Hfree.
  - simpl. now destruct i.
  - assert (Hfree' : forall i', i = S i' ->
              forall j, (j <= i' < j + 5)%nat -> ~ occurs_at ":3000" s j).
    { intros i' -> j Hj Hocc. apply (Hfree (S j)); [lia | exact Hocc]. }
    cbn [replace_from]. destruct k as [|k].
    + destruct (prefix ":3000" (String c s)) eqn:Hp.
      * destruct (Nat.lt_ge_cases i 5) as [Hlt|Hge].
        { exfalso. apply (Hfree 0%nat); [lia | exact Hp]. }
        change (String.length ":3000" - 1)%nat with 4%nat.
        replace (i - 0)%nat with ((i - 5) + String.length ":8080")%nat
          by (simpl; lia).
        rewrite <- append_correct2.
        destruct i as [|i]; [lia|].
        replace (S i - 5)%nat with (i - 4)%nat by lia.
        cbn [String.get]. apply IH; [lia | lia | now apply Hfree'].
      * destruct i as [|i]; [reflexivity|].
        cbn [Nat.sub String.get].
        specialize (IH 0%nat i ltac:(lia) ltac:(lia) (Hfree' i eq_refl)).
        now rewrite Nat.sub_0_r in IH.
    + destruct i as [|i]; [lia|]. cbn [Nat.sub String.get].
      apply IH; [lia | lia | now apply Hfree'].
Qed.
End Port.

(** C10: without an explicit API URL (also with an empty one) the API
    base URL is the target URL with [':3000'] replaced by [':8080']: it
    has the length of the target URL, reads [':8080'] wherever the
    target URL reads [':3000'], and agrees with the target URL at every
    position that no occurrence of [':3000'] covers.  In particular a
    target URL without [':3000'] is its own API base URL. *)
Theorem default_api_url (target : string) :
  let api := api_url (scanner_of target None) in
  api = replace ":3000" ":8080" target /\
  api_url (scanner_of target (Some "")) = api /\
  String.length api = String.length target /\
  (forall i, occurs_at ":3000" target i -> occurs_at ":8080" api i) /\
  (forall i,
     (forall j, (j <= i < j + 5)%nat -> ~ occurs_at ":3000" target j) ->
     String.get i api = String.get i target) /\
  (contains ":3000" target = false -> api = target) /\
  ((forall i, ~ occurs_at ":3000" target i) -> api = target).
Proof.
  cbv zeta. cbn [api_url scanner_of py_or]. unfold replace.
  split; [reflexivity|]. split; [reflexivity|].
  split; [rewrite replace_from_length by lia; lia|].
  split.
  { intros i H. pose proof (replace_from_occurs target 0 i ltac:(lia) H) as H'.
    now rewrite Nat.sub_0_r in H'. }
  split.
  { intros i H.
    pose proof (replace_from_elsewhere target 0 i ltac:(lia) ltac:(lia) H)
      as H'.
    now rewrite Nat.sub_0_r in H'. }
  split; [apply (replace_absent ":3000" ":8080" target)|].
  intros Hnone. apply (replace_absent ":3000" ":8080" target).
  destruct (contains ":3000" target) eqn:E; [|reflexivity].
  apply contains_occurs in E as (i & Hi). now destruct (Hnone i).
Qed.

(** C10, witness: a target on port 3000 and a target on port 5000. *)
Lemma default_api_url_witness :
  occurs_at ":8080" (api_url (scanner_of "http://localhost:3000/app" None)) 16 /\
  api_url (scanner_of "http://localhost:5000" None) = "http://localhost:5000".
Proof.
  destruct (default_api_url "http://localhost:3000/app")
    as (_ & _ & _ & Hocc & _).
  destruct (default_api_url "http://localhost:5000")
    as (_ & _ & _ & _ & _ & Habsent & _).
  split; [apply Hocc | apply Habsent]; reflexivity.
Defined.

(** * Further properties *)

(** ** The polling loops (run_spider_scan, run_active_scan) *)

Lemma requests_of_app t1 t2 :
  requests_of (t1 ++ t2) = requests_of t1 ++ requests_of t2.
Proof.
  induction t1 as [|ev t1 IH]; [reflexivity|].
  destruct ev; simpl; now rewrite ?IH.
Qed.

Lemma spider_wait_completes self scan_id statuses : forall fuel w s,
  completes_after w (requests_made s) statuses ->
  (length statuses < fuel)%nat ->
  let x := spider_wait self scan_id fuel w s in
  outcome x = Ret tt /\
  requests_made (final_state x) = (requests_made s + S (length statuses))%nat /\
  has_zap_process (final_state x) = has_zap_process s /\
  requests_of (trace x) =
    repeat (request (spider_status_url self) [("scanId", scan_id)])
           (S (length statuses)) /\
  slept (trace x) = 2 * Z.of_nat (length statuses).
Proof.
  induction statuses as [|status rest IH]; intros fuel w s (Hnot & Hrep & Hlast) Hfuel;
    (destruct fuel as [|fuel]; [lia|]); cbv zeta; rewrite spider_wait_S; cbv zeta.
  - destruct Hlast as (r & Hr & Hitem). cbn [length] in Hr.
    rewrite Nat.add_0_r in Hr. rewrite Hr, Hitem. cbn.
    repeat split; lia.
  - destruct (Hrep 0%nat status eq_refl) as (r & Hr & Hitem).
    rewrite Nat.add_0_r in Hr. rewrite Hr, Hitem.
    inversion Hnot as [|? ? H100 Hnot']; subst. rewrite H100.
    assert (Hrest : completes_after w (requests_made (sent s)) rest).
    { split; [exact Hnot'|]. split.
      - intros j st Hj. specialize (Hrep (S j) st Hj).
        now replace (requests_made (sent s) + j)%nat
          with (requests_made s + S j)%nat by (simpl; lia).
      - now replace (requests_made (sent s) + length rest)%nat
          with (requests_made s + length (status :: rest))%nat
          by (simpl; lia). }
    specialize (IH fuel w (sent s) Hrest ltac:(simpl in Hfuel; lia)).
    cbv zeta in IH.
    destruct (spider_wait self scan_id fuel w (sent s)) as [[r' s'] t'].
    unfold outcome, final_state, trace in *. cbn [fst snd] in *.
    destruct IH as (Hout & Hn & Hp & Hreq & Hsl).
    split; [exact Hout|]. split; [simpl in Hn |- *; lia|].
    split; [exact Hp|].
    split; [cbn [requests_of length repeat]; now rewrite Hreq|].
    cbn [slept length]. rewrite Hsl. lia.
Qed.

Lemma spider_wait_never self scan_id : forall fuel w s,
  never_completes w (requests_made s) ->
  let x := spider_wait self scan_id fuel w s in
  outcome x = Diverge /\
  length (requests_of (trace x)) = fuel /\
  slept (trace x) = 2 * Z.of_nat fuel.
Proof.
  induction fuel as [|fuel IH]; intros w s Hnever; cbv zeta.
  - now cbn.
  - rewrite spider_wait_S. cbv zeta.
    destruct (Hnever 0%nat) as (status & (r & Hr & Hitem) & H100).
    rewrite Nat.add_0_r in Hr. rewrite Hr, Hitem, H100.
    assert (Hnext : never_completes w (requests_made (sent s))).
    { intros j. destruct (Hnever (S j)) as (st & Hst & Hn).
      exists st. split; [|exact Hn].
      now replace (requests_made (sent s) + j)%nat
        with (requests_made s + S j)%nat by (simpl; lia). }
    specialize (IH w (sent s) Hnext). cbv zeta in IH.
    destruct (spider_wait self scan_id fuel w (sent s)) as [[r' s'] t'].
    unfold outcome, trace in *. cbn [fst snd] in *.
    destruct IH as (Hout & Hlen & Hsl).
    split; [exact Hout|]. split; [cbn; now rewrite Hlen|].
    cbn [slept]. rewrite Hsl. lia.
Qed.

(** [run_spider_scan] in terms of its loop. *)
Lemma run_spider_scan_eq self fuel w s :
  run_spider_scan self fuel w s =
  let ev := EvGet (spider_scan_request self) (http w (requests_made s)) in
  match http w (requests_made s) with
  | Fails e => (Exc (Error e), sent s, [ev])
  | Responds r =>
      match response_item r "scan" with
      | inl e => (Exc (Error e), sent s, [ev])
      | inr scan_id =>
          let '(r', s', t') := spider_wait self scan_id fuel w (sent s) in
          (match r' with
           | Ret _ => Ret scan_id
           | Exc e => Exc e
           | Diverge => Diverge
           end, s', ev :: t')
      end
  end.
Proof.
  unfold run_spider_scan, spider_scan_request, bind, requests_get, lift,
    raise, ret.
  destruct (http w (requests_made s)) as [r|e]; [|reflexivity].
  destruct (response_item r "scan") as [e|scan_id]; [reflexivity|].
  destruct (spider_wait self scan_id fuel w (sent s)) as [[[u|e|] s'] t'];
    cbn; now rewrite ?app_nil_r.
Qed.

(** X1: when the engine answers the spider start with a scan id and then
    reports statuses other than ['100'] followed by ['100'],
    [run_spider_scan] returns that id (given enough loop budget).  It has
    sent the start request and one status request per reported status,
    each carrying the id as [scanId], and it has slept two seconds after
    each status that was not ['100']. *)
Theorem spider_scan_returns_at_first_100 (self : Scanner) (fuel : nat)
    (w : World) (s : State) (scan_id : json) (statuses : list json) :
  reports_scan w (requests_made s) scan_id ->
  completes_after w (S (requests_made s)) statuses ->
  (length statuses < fuel)%nat ->
  let x := run_spider_scan self fuel w s in
  outcome x = Ret scan_id /\
  requests_of (trace x) =
    spider_scan_request self ::
    repeat (request (spider_status_url self) [("scanId", scan_id)])
           (S (length statuses)) /\
  slept (trace x) = 2 * Z.of_nat (length statuses).
Proof.
  intros (r & Hr & Hid) Hdone Hfuel. cbv zeta.
  rewrite run_spider_scan_eq. cbv zeta. rewrite Hr, Hid.
  pose proof (spider_wait_completes self scan_id statuses fuel w (sent s)
                Hdone Hfuel) as H.
  cbv zeta in H.
  destruct (spider_wait self scan_id fuel w (sent s)) as [[r' s'] t'].
  unfold outcome, final_state, trace in *. cbn [fst snd] in *.
  destruct H as (-> & _ & _ & Hreq & Hsl).
  split; [reflexivity|]. split; [cbn [requests_of]; now rewrite Hreq|].
  exact Hsl.
Qed.

(** X1, witness: the spider reports 30, 65 and then 100. *)
Lemma spider_scan_returns_at_first_100_witness :
  let x := run_spider_scan scanner0 3 slow_scan initial_state in
  outcome x = Ret (JStr "7") /\
  requests_of (trace x) =
    spider_scan_request scanner0 ::
    repeat (request (spider_status_url scanner0) [("scanId", JStr "7")]) 3 /\
  slept (trace x) = 4.
Proof.
  apply (spider_scan_returns_at_first_100 scanner0 3 slow_scan initial_state
           (JStr "7") [JStr "30"; JStr "65"]).
  - eexists. split; reflexivity.
  - split; [repeat constructor|]. split.
    + intros [|[|[|j]]] status Hj; try discriminate;
        injection Hj as <-; eexists; split; reflexivity.
    + eexists. split; reflexivity.
  - simpl. lia.
Defined.

(** X2: [run_spider_scan] has no timeout and recognises completion only
    by the string ['100']: against an engine that never reports that
    string (for instance one that reports the number 100) it does not
    return, however long it is followed; it sends one status request per
    turn and sleeps two seconds after each. *)
Theorem spider_scan_never_gives_up (self : Scanner) (fuel : nat) (w : World)
    (s : State) (scan_id : json) :
  reports_scan w (requests_made s) scan_id ->
  never_completes w (S (requests_made s)) ->
  let x := run_spider_scan self fuel w s in
  outcome x = Diverge /\
  length (requests_of (trace x)) = S fuel /\
  slept (trace x) = 2 * Z.of_nat fuel.
Proof.
  intros (r & Hr & Hid) Hnever. cbv zeta.
  rewrite run_spider_scan_eq. cbv zeta. rewrite Hr, Hid.
  pose proof (spider_wait_never self scan_id fuel w (sent s) Hnever) as H.
  cbv zeta in H.
  destruct (spider_wait self scan_id fuel w (sent s)) as [[r' s'] t'].
  unfold outcome, trace in *. cbn [fst snd] in *.
  destruct H as (-> & Hlen & Hsl).
  split; [reflexivity|]. split; [cbn; now rewrite Hlen | exact Hsl].
Qed.

(** X2, witness: the engine reports the status as the number 100. *)
Lemma spider_scan_never_gives_up_witness :
  let x := run_spider_scan scanner0 50 numeric_status initial_state in
  outcome x = Diverge /\
  length (requests_of (trace x)) = 51%nat /\
  slept (trace x) = 100.
Proof.
  apply (spider_scan_never_gives_up scanner0 50 numeric_status initial_state
           (JStr "0")).
  - eexists. split; reflexivity.
  - intros j. exists (JNum 100). split; [|reflexivity].
    eexists. split; reflexivity.
Defined.

(** One turn of the active-scan loop. *)
Lemma ascan_wait_S self scan_id k w s :
  ascan_wait self scan_id (S k) w s =
  let ev := EvGet (request (ascan_status_url self) [("scanId", scan_id)])
                  (http w (requests_made s)) in
  match http w (requests_made s) with
  | Fails e => (Exc (Error e), sent s, [ev])
  | Responds r =>
      match response_item r "status" with
      | inl e => (Exc (Error e), sent s, [ev])
      | inr status =>
          if is_100 status then (Ret tt, sent s, [ev])
          else
            let '(r', s', t') := ascan_wait self scan_id k w (sent s) in
            (r', s',
             ev :: EvSleep 5 ::
             EvPrint [Lit "Active scan progress: "; Fmt status; Lit "%"] :: t')
      end
  end.
Proof.
  cbn [ascan_wait]. unfold bind, requests_get, lift, raise, ret,
    time_sleep, print, emit.
  destruct (http w (requests_made s)) as [r|e]; [|reflexivity].
  destruct (response_item r "status") as [e|status]; [reflexivity|].
  destruct (is_100 status); [reflexivity|].
  now destruct (ascan_wait self scan_id k w (sent s)) as [[r' s'] t'].
Qed.



(** [run_active_scan] in terms of its loop. *)
Lemma run_active_scan_eq self fuel w s :
  run_active_scan self fuel w s =
  let ev := EvGet (ascan_scan_request self) (http w (requests_made s)) in
  match http w (requests_made s) with
  | Fails e => (Exc (Error e), sent s, [ev])
  | Responds r =>
      match response_item r "scan" with
      | inl e => (Exc (Error e), sent s, [ev])
      | inr scan_id =>
          let '(r', s', t') := ascan_wait self scan_id fuel w (sent s) in
          (match r' with
           | Ret _ => Ret scan_id
           | Exc e => Exc e
           | Diverge => Diverge
           end, s', ev :: t')
      end
  end.
Proof.
  unfold run_active_scan, ascan_scan_request, bind, requests_get, lift,
    raise, ret.
  destruct (http w (requests_made s)) as [r|e]; [|reflexivity].
  destruct (response_item r "scan") as [e|scan_id]; [reflexivity|].
  destruct (ascan_wait self scan_id fuel w (sent s)) as [[[u|e|] s'] t'];
    cbn; now rewrite ?app_nil_r.
Qed.





(** X5: a scan start whose answer carries no scan id ends the scan at
    once: the failure of the request, [ValueError] for a body that is not
    JSON, [TypeError] for JSON that is not an object or [KeyError] for an
    object without ['scan'] is raised by [run_spider_scan] and by
    [run_active_scan], and no status request is sent. *)
Theorem scan_start_without_id_raises (self : Scanner) (fuel : nat) (w : World)
    (s : State) (e : exn) :
  start_error (http w (requests_made s)) = Some e ->
  run_spider_scan self fuel w s =
    (Exc (Error e), sent s,
     [EvGet (spider_scan_request self) (http w (requests_made s))]) /\
  run_active_scan self fuel w s =
    (Exc (Error e), sent s,
     [EvGet (ascan_scan_request self) (http w (requests_made s))]).
Proof.
  intros He. rewrite run_spider_scan_eq, run_active_scan_eq. cbv zeta.
  unfold start_error in He.
  destruct (http w (requests_made s)) as [r|e'].
  - unfold response_item, response_json.
    destruct (body r) as [[| | | | |fields]|]; cbn;
      try (injection He as <-; split; reflexivity).
    destruct (lookup "scan" fields); [discriminate|].
    injection He as <-. split; reflexivity.
  - injection He as <-. split; reflexivity.
Qed.

(** X5, witness: the engine answers with an empty JSON object. *)
Lemma scan_start_without_id_raises_witness :
  run_spider_scan scanner0 9 empty_answers initial_state =
    (Exc (Error KeyError), sent initial_state,
     [EvGet (spider_scan_request scanner0) (ok (JObj []))]) /\
  run_active_scan scanner0 9 empty_answers initial_state =
    (Exc (Error KeyError), sent initial_state,
     [EvGet (ascan_scan_request scanner0) (ok (JObj []))]).
Proof.
  apply (scan_start_without_id_raises scanner0 9 empty_answers initial_state
           KeyError).
  reflexivity.
Defined.

(** ** Scope and authentication (configure_zap) *)

Lemma has_auth_run self w s :
  has_auth self w s =
  (Ret match http w (requests_made s) with
       | Responds r => status_code r =? 401
       | Fails _ => false
       end,
   sent s,
   [EvGet (health_request self) (http w (requests_made s))]).
Proof.
  unfold has_auth, try_except, bind, requests_get, ret.
  now destruct (http w (requests_made s)).
Qed.

(** X6: [configure_zap] succeeds exactly when the scope request is
    answered, whatever the status of the answer; it then probes the
    health endpoint once, and neither the answer nor a failure of that
    probe changes the outcome.  When the scope request fails, its
    exception is raised and the health endpoint is not probed. *)
Theorem configure_zap_depends_on_scope_only (self : Scanner) (w : World)
    (s : State) :
  (forall r,
     http w (requests_made s) = Responds r ->
     configure_zap self w s =
     (Ret tt, sent (sent s),
      [EvGet (scope_request self) (Responds r);
       EvGet (health_request self) (http w (S (requests_made s)))])) /\
  (forall e,
     http w (requests_made s) = Fails e ->
     configure_zap self w s =
     (Exc (Error e), sent s, [EvGet (scope_request self) (Fails e)])).
Proof.
  split.
  - intros r Hr.
    unfold configure_zap, scope_request, bind at 1, requests_get. rewrite Hr.
    unfold bind. rewrite has_auth_run.
    change (requests_made (sent s)) with (S (requests_made s)).
    now destruct (http w (S (requests_made s))) as [r'|e];
      [destruct (status_code r' =? 401)|].
  - intros e He.
    unfold configure_zap, scope_request, bind, requests_get. now rewrite He.
Qed.

(** X6, witness: the scope request is answered with status 500 and the
    health probe is refused; the configuration succeeds all the same. *)
Lemma configure_zap_depends_on_scope_only_witness :
  configure_zap scanner0 scope_rejected initial_state =
  (Ret tt, sent (sent initial_state),
   [EvGet (scope_request scanner0)
          (Responds {| status_code := 500; body := None |});
    EvGet (health_request scanner0) (Fails ConnectionError)]).
Proof.
  destruct (configure_zap_depends_on_scope_only scanner0 scope_rejected
              initial_state) as [Hanswered _].
  apply (Hanswered {| status_code := 500; body := None |}). reflexivity.
Defined.

(** ** More on the report (generate_report) *)

Lemma print_counts_trace risk_counts : forall w s,
  print_counts risk_counts w s =
  (Ret tt, s, map risk_line (filter (fun entry => 0 <? snd entry) risk_counts)).
Proof.
  induction risk_counts as [|[risk count] rest IH]; intros w s;
    [reflexivity|].
  cbn [print_counts filter snd]. unfold bind.
  destruct (0 <? count); cbn; now rewrite IH.
Qed.

Lemma risk_lines_risk_line entries :
  risk_lines (map risk_line entries) = entries.
Proof.
  induction entries as [|[risk count] rest IH]; [reflexivity|].
  cbn. now rewrite IH.
Qed.

Lemma announced_risk_line entries : announced (map risk_line entries) = [].
Proof.
  induction entries as [|[risk count] rest IH]; [reflexivity|].
  exact IH.
Qed.

Lemma written_risk_line entries : written (map risk_line entries) = [].
Proof.
  induction entries as [|[risk count] rest IH]; [reflexivity | exact IH].
Qed.

(** The trace of a [generate_report] that returns. *)
Lemma generate_report_returns self results w s :
  outcome (generate_report self results w s) = Ret tt ->
  exists r response,
    make_report (clock w) (target_url self) results = inr r /\
    http w (requests_made s) = Responds response /\
    trace (generate_report self results w s) =
      EvWrite (report_path self) r None ::
      EvGet (html_request self) (Responds response) ::
      EvPrint [Lit "Security scan completed. Found ";
               Fmt (JNum (total_alerts r)); Lit " total alerts:"] ::
      map risk_line (filter (fun entry => 0 <? snd entry) (summary r)).
Proof.
  unfold generate_report, bind, time_strftime, lift, ret, raise, write_json,
    requests_get, print, emit.
  destruct (make_report (clock w) (target_url self) results) as [e|r];
    [discriminate|].
  cbv beta iota.
  destruct (file_write w) as [e|]; [discriminate|].
  destruct (http w (requests_made s)) as [response|e]; [|discriminate].
  rewrite print_counts_trace. intros _. exists r, response. auto.
Qed.

Lemma lookup_In {V} k (v : V) d :
  NoDup (keys d) -> (lookup k d = Some v <-> In (k, v) d).
Proof.
  unfold keys. induction d as [|[k' v'] d IH]; simpl; intros Hnd.
  - split; [discriminate | contradiction].
  - inversion Hnd as [|? ? Hnotin Hnd']; subst.
    destruct (String.eqb k k') eqn:E.
    + apply String.eqb_eq in E. subst k'. split.
      * intros H. injection H as ->. now left.
      * intros [H|H]; [now injection H as -> |].
        exfalso. apply Hnotin. now apply (in_map fst) in H.
    + apply String.eqb_neq in E. rewrite (IH Hnd'). split.
      * intros H. now right.
      * intros [H|H]; [injection H as -> ->; congruence | exact H].
Qed.

(** X7: for each of the four severities, the count in the summary of a
    written report is the number of retrieved findings of that severity
    (findings without severity counting as Informational), and it is the
    length of that severity's list of findings. *)
Theorem summary_counts_each_severity (self : Scanner) (results : json)
    (w : World) (s : State) (r : Report) :
  In r (written (trace (generate_report self results w s))) ->
  exists items,
    retrieved results = inr items /\
    forall severity,
      In severity severities ->
      lookup severity (summary r) =
        Some (Z.of_nat (length (filter (in_bucket severity) items))) /\
      exists bucket,
        lookup severity (findings r) = Some bucket /\
        length bucket = length (filter (in_bucket severity) items).
Proof.
  intros Hin. apply generate_report_written in Hin as [Hrep _].
  apply make_report_inr in Hrep
    as (alerts & items & Hget & Hiter & Hcat & _).
  exists items. unfold retrieved. rewrite Hget.
  split; [exact Hiter|].
  pose proof (categorize_inr _ _ _ _ _ Hcat) as (_ & _ & Hcount & Hbucket).
  intros severity Hsev. rewrite Hcount, Hbucket.
  simpl in Hsev.
  destruct Hsev as [<-|[<-|[<-|[<-|[]]]]]; cbn [lookup risk_counts0
    detailed_findings0 String.eqb Ascii.eqb Bool.eqb option_map];
    (split; [reflexivity|]); eexists; (split; [reflexivity|]);
    cbn [app]; now rewrite length_map.
Qed.

(** X7, witness: two High findings, one Low, one without severity. *)
Lemma summary_counts_each_severity_witness :
  let results := JObj [("alerts", JArr [alert_of "High" "a"; JObj [];
                                        alert_of "Low" "b";
                                        alert_of "High" "c"])] in
  let x := generate_report scanner0 results (scripted [ok JNull])
             initial_state in
  exists r,
    In r (written (trace x)) /\
    exists items,
      retrieved results = inr items /\
      forall severity,
        In severity severities ->
        lookup severity (summary r) =
          Some (Z.of_nat (length (filter (in_bucket severity) items))) /\
        exists bucket,
          lookup severity (findings r) = Some bucket /\
          length bucket = length (filter (in_bucket severity) items).
Proof.
  cbv zeta.
  refine (ex_intro _ _ _).
  refine ((fun Hin => conj Hin
             (summary_counts_each_severity _ _ _ _ _ Hin)) _).
  vm_compute. left. reflexivity.
Defined.

(** X8: a [generate_report] that returns has written one report and
    printed its summary: the announced total is the number of retrieved
    findings, and the severity lines are the entries of the report's
    summary with a positive count, in the order High, Medium, Low,
    Informational; a severity has a line exactly when some retrieved
    finding belongs to it. *)
Theorem printed_summary_matches_report (self : Scanner) (results : json)
    (w : World) (s : State) :
  let x := generate_report self results w s in
  outcome x = Ret tt ->
  exists r items,
    written (trace x) = [r] /\
    retrieved results = inr items /\
    announced (trace x) = [Z.of_nat (length items)] /\
    risk_lines (trace x) =
      filter (fun entry => 0 <? snd entry) (summary r) /\
    forall severity,
      In severity severities ->
      (In severity (keys (risk_lines (trace x))) <->
       exists alert, In alert items /\ in_bucket severity alert = true).
Proof.
  cbv zeta. intros Hret.
  destruct (generate_report_returns _ _ _ _ Hret)
    as (r & response & Hrep & _ & Htrace).
  rewrite Htrace.
  pose proof (make_report_inr _ _ _ _ Hrep)
    as (alerts & items & Hget & Hiter & Hcat & Hlen & _).
  pose proof (py_len_iter _ _ _ Hiter Hlen) as Htotal.
  pose proof (categorize_inr _ _ _ _ _ Hcat) as (_ & Hkeys & Hcount & _).
  exists r, items.
  assert (Hlines :
            risk_lines
              (EvWrite (report_path self) r None ::
               EvGet (html_request self) (Responds response) ::
               EvPrint [Lit "Security scan completed. Found ";
                        Fmt (JNum (total_alerts r)); Lit " total alerts:"] ::
               map risk_line
                 (filter (fun entry => 0 <? snd entry) (summary r)))
            = filter (fun entry => 0 <? snd entry) (summary r))
    by (cbn [risk_lines]; apply risk_lines_risk_line).
  split; [cbn [written]; now rewrite written_risk_line|].
  split; [unfold retrieved; now rewrite Hget|].
  split; [cbn [announced]; now rewrite announced_risk_line, Htotal|].
  split; [exact Hlines|].
  intros severity Hsev. rewrite Hlines.
  assert (Hnd : NoDup (keys (summary r)))
    by (rewrite Hkeys; repeat constructor; simpl; intuition discriminate).
  assert (Hlook : lookup severity (summary r) =
                  Some (Z.of_nat (length (filter (in_bucket severity) items)))).
  { rewrite Hcount. simpl in Hsev.
    destruct Hsev as [<-|[<-|[<-|[<-|[]]]]]; reflexivity. }
  unfold keys. rewrite in_map_iff. split.
  - intros ([k v] & Hk & Hf). simpl in Hk. subst k.
    apply filter_In in Hf as [Hf Hpos]. simpl in Hpos.
    apply (lookup_In _ _ _ Hnd) in Hf. rewrite Hlook in Hf.
    injection Hf as <-. apply Z.ltb_lt in Hpos.
    destruct (filter (in_bucket severity) items) as [|alert rest] eqn:Hfil;
      [simpl in Hpos; lia|].
    exists alert. apply filter_In. rewrite Hfil. now left.
  - intros (alert & Hin & Hb).
    exists (severity, Z.of_nat (length (filter (in_bucket severity) items))).
    split; [reflexivity|]. apply filter_In. split.
    + now apply (lookup_In _ _ _ Hnd).
    + simpl. apply Z.ltb_lt.
      assert (Hf : In alert (filter (in_bucket severity) items))
        by (apply filter_In; auto).
      destruct (filter (in_bucket severity) items); [contradiction|].
      simpl. lia.
Qed.

(** X8, witness: one High finding and one finding without severity. *)
Lemma printed_summary_matches_report_witness :
  let results := JObj [("alerts", JArr [alert_of "High" "a"; JObj []])] in
  let x := generate_report scanner0 results (scripted [ok JNull])
             initial_state in
  exists r items,
    written (trace x) = [r] /\
    retrieved results = inr items /\
    announced (trace x) = [Z.of_nat (length items)] /\
    risk_lines (trace x) =
      filter (fun entry => 0 <? snd entry) (summary r) /\
    forall severity,
      In severity severities ->
      (In severity (keys (risk_lines (trace x))) <->
       exists alert, In alert items /\ in_bucket severity alert = true).
Proof.
  apply (printed_summary_matches_report scanner0
           (JObj [("alerts", JArr [alert_of "High" "a"; JObj []])])
           (scripted [ok JNull]) initial_state).
  reflexivity.
Defined.

Lemma retrieved_nothing now target results :
  retrieved results = inr [] ->
  make_report now target results = inr (empty_report now target).
Proof.
  unfold retrieved, make_report.
  destruct (py_get results "alerts" (JArr [])) as [e|alerts]; [discriminate|].
  intros Hiter. rewrite Hiter, (py_iter_len _ _ Hiter). reflexivity.
Qed.

(** X9: when the results carry no findings, because the ['alerts'] key is
    missing or because its value is an empty list (or an empty object or
    string, which iterate like an empty list), [generate_report] writes
    the report with all four counts 0, four empty lists and
    [total_alerts] 0. *)
Theorem no_findings_empty_report (self : Scanner) (fields : list (string * json))
    (w : World) (s : State) :
  lookup "alerts" fields = None \/
  lookup "alerts" fields = Some (JArr []) \/
  lookup "alerts" fields = Some (JObj []) \/
  lookup "alerts" fields = Some (JStr "") ->
  file_write w = None ->
  written (trace (generate_report self (JObj fields) w s)) =
  [empty_report (clock w) (target_url self)].
Proof.
  intros Hcases Hw. apply generate_report_writes; [|exact Hw].
  apply retrieved_nothing. unfold retrieved, py_get.
  destruct Hcases as [H|[H|[H|H]]]; rewrite H; reflexivity.
Qed.

(** X9, witness: the engine's answer has no ['alerts'] key. *)
Lemma no_findings_empty_report_witness :
  written (trace (generate_report scanner0 (JObj [("version", JStr "2")])
                    (scripted [ok JNull]) initial_state)) =
  [empty_report "2024-01-01 00:00:00" "http://localhost:3000"].
Proof.
  apply (no_findings_empty_report scanner0 [("version", JStr "2")]
           (scripted [ok JNull]) initial_state).
  - left. reflexivity.
  - reflexivity.
Defined.

Lemma categorize_app pre : forall rest acc,
  categorize (pre ++ rest) acc =
  match categorize pre acc with
  | inl e => inl e
  | inr acc' => categorize rest acc'
  end.
Proof.
  induction pre as [|alert pre IH]; intros rest acc; [reflexivity|].
  cbn [app categorize].
  destruct (categorize_alert alert acc) as [e|acc']; [reflexivity | apply IH].
Qed.

Lemma generate_report_raises self results w s e :
  make_report (clock w) (target_url self) results = inl e ->
  generate_report self results w s = (Exc (Error e), s, []).
Proof.
  intros H. pose proof (generate_report_run self results w s) as Hrun.
  now rewrite H in Hrun.
Qed.

(** X10: results that are not of the expected shape abort the report
    before anything is written or requested: results that are not an
    object raise [AttributeError]; an ['alerts'] value that is null, a
    boolean or a number raises [TypeError]; a list of alerts in which
    well-formed findings are followed by a value that is not an object
    raises [AttributeError]. *)
Theorem malformed_results_abort_report (self : Scanner) (results : json)
    (w : World) (s : State) :
  (is_object results = false ->
   generate_report self results w s = (Exc (Error AttributeError), s, [])) /\
  (forall fields alerts,
     results = JObj fields ->
     lookup "alerts" fields = Some alerts ->
     is_scalar alerts = true ->
     generate_report self results w s = (Exc (Error TypeError), s, [])) /\
  (forall fields pre bad post,
     results = JObj fields ->
     lookup "alerts" fields = Some (JArr (pre ++ bad :: post)) ->
     Forall recognised pre ->
     is_object bad = false ->
     generate_report self results w s = (Exc (Error AttributeError), s, [])).
Proof.
  split; [|split].
  - intros Hobj. apply generate_report_raises.
    destruct results; try discriminate; reflexivity.
  - intros fields alerts -> Hlook Hscalar. apply generate_report_raises.
    unfold make_report, py_get. rewrite Hlook.
    destruct alerts; try discriminate; reflexivity.
  - intros fields pre bad post -> Hlook Hpre Hbad.
    apply generate_report_raises.
    unfold make_report, py_get. rewrite Hlook. cbn [py_iter].
    rewrite categorize_app.
    destruct (categorize_recognised pre risk_counts0 detailed_findings0
                (incl_refl _) Hpre) as ([rc df] & ->).
    cbn [categorize]. unfold categorize_alert.
    destruct bad; try discriminate; reflexivity.
Qed.

(** X10, witness: a list answered instead of an object, a null
    ['alerts'], and a string among the alerts. *)
Lemma malformed_results_abort_report_witness :
  generate_report scanner0 (JArr []) unreachable initial_state =
    (Exc (Error AttributeError), initial_state, []) /\
  generate_report scanner0 (JObj [("alerts", JNull)]) unreachable
    initial_state = (Exc (Error TypeError), initial_state, []) /\
  generate_report scanner0
    (JObj [("alerts", JArr [alert_of "High" "a"; JStr "oops"; JObj []])])
    unreachable initial_state =
    (Exc (Error AttributeError), initial_state, []).
Proof.
  split; [|split].
  - apply (malformed_results_abort_report scanner0 (JArr []) unreachable
             initial_state). reflexivity.
  - destruct (malformed_results_abort_report scanner0
                (JObj [("alerts", JNull)]) unreachable initial_state)
      as (_ & Hscalar & _).
    apply (Hscalar [("alerts", JNull)] JNull); reflexivity.
  - destruct (malformed_results_abort_report scanner0
                (JObj [("alerts",
                        JArr [alert_of "High" "a"; JStr "oops"; JObj []])])
                unreachable initial_state)
      as (_ & _ & Hbad).
    apply (Hbad [("alerts", JArr [alert_of "High" "a"; JStr "oops"; JObj []])]
                [alert_of "High" "a"] (JStr "oops") [JObj []]);
      try reflexivity.
    repeat constructor.
Defined.

Lemma requests_of_prints t : Forall is_print t -> requests_of t = [].
Proof.
  induction 1 as [|ev t Hev _ IH]; [reflexivity|].
  destruct ev; try contradiction. exact IH.
Qed.

(** X11: [generate_report] asks for the HTML report only after the JSON
    report has been written: when it sends a request at all, that request
    is the HTML request and one report is on disk.  When the file cannot
    be written, the error of the write is raised and nothing is
    requested. *)
Theorem html_requested_only_after_write (self : Scanner) (results : json)
    (w : World) (s : State) :
  let x := generate_report self results w s in
  (requests_of (trace x) <> [] ->
   requests_of (trace x) = [html_request self] /\
   exists r, written (trace x) = [r]) /\
  (forall r e,
     make_report (clock w) (target_url self) results = inr r ->
     file_write w = Some e ->
     x = (Exc (Error e), s, [EvWrite (report_path self) r (Some e)])).
Proof.
  cbv zeta. pose proof (generate_report_run self results w s) as H.
  destruct (make_report (clock w) (target_url self) results) as [e|r].
  - rewrite H. split; [intros Hne; now contradiction Hne | discriminate].
  - destruct (file_write w) as [e|].
    + rewrite H. split; [intros Hne; now contradiction Hne|].
      intros r' e' Hr He. now injection Hr as <-; injection He as <-.
    + split; [|discriminate].
      destruct (http w (requests_made s)) as [response|e].
      * destruct H as (t & -> & Hp). intros _. cbn.
        rewrite (requests_of_prints _ Hp), (written_prints _ Hp).
        split; [reflexivity | now exists r].
      * rewrite H. intros _. cbn. split; [reflexivity | now exists r].
Qed.

(** X11, witness: a run that reaches the HTML request, and a results
    directory that cannot be written. *)
Lemma html_requested_only_after_write_witness :
  (requests_of (trace (generate_report scanner0 (JObj []) empty_answers
                         initial_state)) = [html_request scanner0] /\
   exists r, written (trace (generate_report scanner0 (JObj []) empty_answers
                               initial_state)) = [r]) /\
  generate_report scanner0 (JObj []) read_only_disk initial_state =
  (Exc (Error OSError), initial_state,
   [EvWrite (report_path scanner0)
            (empty_report "2024-01-01 00:00:00" "http://localhost:3000")
            (Some OSError)]).
Proof.
  split.
  - apply (html_requested_only_after_write scanner0 (JObj []) empty_answers
             initial_state).
    vm_compute. discriminate.
  - apply (html_requested_only_after_write scanner0 (JObj []) read_only_disk
             initial_state); reflexivity.
Defined.

(** ** More on engine start and stop (start_zap_daemon, stop_zap) *)

Lemma poll_version_first self : forall k attempts w s,
  (k < attempts)%nat ->
  (forall j, (j < k)%nat -> retries w (requests_made s + j)) ->
  let x := poll_version self attempts w s in
  (answers_200 w (requests_made s + k) ->
   outcome x = Ret true /\ length (requested (trace x)) = S k) /\
  (forall e,
     http w (requests_made s + k) = Fails e -> e <> ConnectionError ->
     outcome x = Exc (Error e) /\ length (requested (trace x)) = S k).
Proof.
  induction k as [|k IH]; intros attempts w s Hk Hpre;
    (destruct attempts as [|attempts]; [lia|]); cbv zeta;
    rewrite poll_version_S; cbv zeta.
  - rewrite Nat.add_0_r. split.
    + intros (r & Hr & H200). rewrite Hr, H200. now cbn.
    + intros e He Hne. rewrite He. now destruct e.
  - assert (Hshift : forall j, (requests_made (sent s) + j
                                = requests_made s + S j)%nat)
      by (intros j; simpl; lia).
    specialize (IH attempts w (sent s) ltac:(lia)).
    cbv zeta in IH. rewrite Hshift in IH.
    assert (Hpre' : forall j, (j < k)%nat ->
                              retries w (requests_made (sent s) + j)).
    { intros j Hj. rewrite Hshift. apply Hpre. lia. }
    specialize (IH Hpre').
    pose proof (Hpre 0%nat ltac:(lia)) as H0. rewrite Nat.add_0_r in H0.
    destruct (poll_version self attempts w (sent s)) as [[r' s'] t'].
    unfold outcome, trace in *. cbn [fst snd] in *.
    destruct H0 as [Hce|(r & Hr & Hne)].
    + rewrite Hce. cbn [fst snd requested length].
      destruct IH as [IH1 IH2]. split.
      * intros H. destruct (IH1 H) as [-> ->]. auto.
      * intros e He Hn. destruct (IH2 e He Hn) as [-> ->]. auto.
    + rewrite Hr. apply Z.eqb_neq in Hne. rewrite Hne.
      cbn [fst snd requested length].
      destruct IH as [IH1 IH2]. split.
      * intros H. destruct (IH1 H) as [-> ->]. auto.
      * intros e He Hn. destruct (IH2 e He Hn) as [-> ->]. auto.
Qed.

(** X12: the readiness loop stops at the first decisive attempt.  After
    attempts that were refused or answered with another status than 200,
    an answer with status 200 makes [start_zap_daemon] return [True]
    without a further request; a failure that is not a connection error
    (a read timeout, say) makes it print the failure and return [False]
    without a further request. *)
Theorem readiness_decided_at_first_answer (self : Scanner) (w : World)
    (s : State) (k : nat) :
  popen w = None ->
  (k < 30)%nat ->
  (forall j, (j < k)%nat -> retries w (requests_made s + j)) ->
  let x := start_zap_daemon self w s in
  (answers_200 w (requests_made s + k) ->
   outcome x = Ret true /\ length (requested (trace x)) = S k) /\
  (forall e,
     http w (requests_made s + k) = Fails e -> e <> ConnectionError ->
     outcome x = Ret false /\ length (requested (trace x)) = S k /\
     last (trace x) EvWait = EvPrint [Lit "Failed to start ZAP: "; FmtExn e]).
Proof.
  intros Hpopen Hk Hpre. cbv zeta. rewrite start_zap_daemon_eq, Hpopen.
  set (s1 := {| requests_made := requests_made s; has_zap_process := true |}).
  pose proof (poll_version_first self k max_attempts w s1 Hk Hpre) as H.
  cbv zeta in H. change (requests_made s1) with (requests_made s) in H.
  destruct (poll_version self max_attempts w s1) as [[r' s'] t'].
  unfold outcome, trace in *. cbn [fst snd] in *.
  destruct H as [H1 H2]. split.
  - intros Hans. destruct (H1 Hans) as [-> Hlen]. cbn. auto.
  - intros e He Hne. destruct (H2 e He Hne) as [-> Hlen].
    cbn [fst snd requested]. rewrite requested_app, app_nil_r.
    split; [reflexivity|]. split; [exact Hlen|].
    change (last ([EvPopen (cmd self) None] ++ t' ++
                  [EvPrint [Lit "Failed to start ZAP: "; FmtExn e]]) EvWait
            = EvPrint [Lit "Failed to start ZAP: "; FmtExn e]).
    now rewrite app_assoc, last_last.
Qed.

(** X12, witness: ready at the fourth attempt; a read timeout at the
    second. *)
Lemma readiness_decided_at_first_answer_witness :
  (outcome (start_zap_daemon scanner0 warming_up initial_state) = Ret true /\
   length (requested (trace (start_zap_daemon scanner0 warming_up
                               initial_state))) = 4%nat) /\
  (outcome (start_zap_daemon scanner0 stalls initial_state) = Ret false /\
   length (requested (trace (start_zap_daemon scanner0 stalls
                               initial_state))) = 2%nat /\
   last (trace (start_zap_daemon scanner0 stalls initial_state)) EvWait =
   EvPrint [Lit "Failed to start ZAP: "; FmtExn Timeout]).
Proof.
  split.
  - apply (readiness_decided_at_first_answer scanner0 warming_up
             initial_state 3); try reflexivity; try (simpl; lia).
    + intros [|[|[|j]]] Hj; try lia;
        [left; reflexivity | left; reflexivity |].
      right. eexists. split; [reflexivity | discriminate].
    + eexists. split; reflexivity.
  - apply (readiness_decided_at_first_answer scanner0 stalls
             initial_state 1); try reflexivity; try (simpl; lia);
      try discriminate.
    intros [|j] Hj; [left; reflexivity | lia].
Defined.

Lemma start_zap_daemon_process self w s :
  has_zap_process (final_state (start_zap_daemon self w s)) =
  match popen w with
  | None => true
  | Some _ => has_zap_process s
  end.
Proof.
  rewrite start_zap_daemon_eq.
  destruct (popen w) as [e|]; [reflexivity|].
  set (s1 := {| requests_made := requests_made s; has_zap_process := true |}).
  pose proof (poll_version_state self max_attempts w s1) as Hst.
  now destruct (poll_version self max_attempts w s1) as [[[b|[e|c]|] s2] t].
Qed.

(** X13: [stop_zap] called after [start_zap_daemon] terminates the engine
    and waits for it, in that order, exactly when the process was
    spawned, whether or not the engine became ready; when the spawn
    failed there is no process and [stop_zap] does nothing.  It never
    raises. *)
Theorem stop_after_start (self : Scanner) (w : World) (s : State) :
  has_zap_process s = false ->
  stop_zap self w (final_state (start_zap_daemon self w s)) =
  (Ret tt, final_state (start_zap_daemon self w s),
   match popen w with
   | None => [EvTerminate; EvWait]
   | Some _ => []
   end).
Proof.
  intros Hs. unfold stop_zap. rewrite start_zap_daemon_process, Hs.
  now destruct (popen w).
Qed.

(** X13, witness: the engine is spawned and never answers. *)
Lemma stop_after_start_witness :
  stop_zap scanner0 unreachable
    (final_state (start_zap_daemon scanner0 unreachable initial_state)) =
  (Ret tt, final_state (start_zap_daemon scanner0 unreachable initial_state),
   [EvTerminate; EvWait]).
Proof.
  apply (stop_after_start scanner0 unreachable initial_state). reflexivity.
Defined.

(** X14: once [start_zap_daemon] has returned [True], a run that ends
    always ends by stopping the engine: [terminate] and [wait] are its
    last two events and occur once each.  The [finally] block does not
    hide what happened: the outcome of the run is the outcome of the scan
    steps, a return or the exception that ended them. *)
Theorem engine_stopped_once_after_start (self : Scanner) (fuel : nat)
    (w : World) (s : State) :
  outcome (start_zap_daemon self w s) = Ret true ->
  outcome (run_full_scan self fuel w s) <> Diverge ->
  count_terminate (trace (run_full_scan self fuel w s)) = 1%nat /\
  count_wait (trace (run_full_scan self fuel w s)) = 1%nat /\
  (exists t, trace (run_full_scan self fuel w s) = t ++ [EvTerminate; EvWait]) /\
  outcome (run_full_scan self fuel w s) =
  outcome (scan_steps self fuel w (final_state (start_zap_daemon self w s))).
Proof.
  intros Hstart Hend.
  destruct (started_run_stops_once self fuel w s Hstart Hend)
    as (Hterm & Hwait & Hlast).
  split; [exact Hterm|]. split; [exact Hwait|]. split; [exact Hlast|].
  rewrite run_full_scan_eq. cbv zeta.
  destruct (start_zap_daemon self w s) as [[r s1] t1].
  unfold outcome in Hstart. cbn [fst] in Hstart. subst r.
  pose proof (outcome_try_finally (scan_steps self fuel) (shutdown self) w s1)
    as Hout.
  rewrite shutdown_run in Hout.
  destruct (try_finally (scan_steps self fuel) (shutdown self) w s1)
    as [[r s2] t2].
  unfold outcome, final_state in *. cbn [fst snd] in *.
  rewrite Hout. now destruct (fst (fst (scan_steps self fuel w s1))).
Qed.

(** X14, witness: the connection drops at the HTML report; the run ends
    with that error after stopping the engine. *)
Lemma engine_stopped_once_after_start_witness :
  let x := run_full_scan scanner0 1 (html_export_down []) initial_state in
  count_terminate (trace x) = 1%nat /\
  count_wait (trace x) = 1%nat /\
  (exists t, trace x = t ++ [EvTerminate; EvWait]) /\
  outcome x =
  outcome (scan_steps scanner0 1 (html_export_down [])
             (final_state (start_zap_daemon scanner0 (html_export_down [])
                             initial_state))).
Proof.
  apply (engine_stopped_once_after_start scanner0 1 (html_export_down [])
           initial_state).
  - reflexivity.
  - vm_compute. discriminate.
Defined.

(** ** More on the default API URL (__init__) *)

(** A prefix without a colon that the result starts with is a prefix of
    the scanned string: the scan only inserts text that starts with a
    colon. *)
Lemma colon_free_prefix (p : string) : forall s,
  (forall i, String.get i p <> Some ":"%char) ->
  prefix p (replace_from ":3000" ":8080" 0 s) = true ->
  prefix p s = true.
Proof.
  induction p as [|c p IH]; intros s Hfree Hp; [now destruct s|].
  assert (Hc : c <> ":"%char)
    by (intros ->; now apply (Hfree 0%nat)).
  assert (Hfree' : forall i, String.get i p <> Some ":"%char)
    by (intros i; apply (Hfree (S i))).
  destruct s as [|d s]; [discriminate|].
  cbn [replace_from] in Hp.
  destruct (prefix ":3000" (String d s)) eqn:Hold.
  - exfalso. cbn in Hp. destruct (ascii_dec c ":"%char); [auto|discriminate].
  - cbn [prefix] in Hp |- *.
    destruct (ascii_dec c d); [|discriminate]. now apply IH.
Qed.

Lemma replace_from_no_occurrence s : forall k i,
  (k <= 4)%nat ->
  ~ occurs_at ":3000" (replace_from ":3000" ":8080" k s) i.
Proof.
  unfold occurs_at.
  induction s as [|c s IH]; intros k i Hk.
  - simpl. now rewrite drop_nil.
  - cbn [replace_from]. destruct k as [|k]; [|apply IH; lia].
    destruct (prefix ":3000" (String c s)) eqn:Hold.
    + change (String.length ":3000" - 1)%nat with 4%nat.
      destruct (Nat.lt_ge_cases i 5) as [Hlt|Hge].
      * destruct i as [|[|[|[|[|i]]]]]; try lia; discriminate.
      * replace i with (5 + (i - 5))%nat by lia.
        rewrite drop_new. apply IH. lia.
    + destruct i as [|i]; [|apply (IH 0%nat i); lia].
      cbn [drop]. intros Hocc.
      assert (Hc : c = ":"%char).
      { cbn [prefix] in Hocc.
        now destruct (ascii_dec ":"%char c); [|discriminate]. }
      subst c.
      assert (Htail : prefix "3000" (replace_from ":3000" ":8080" 0 s) = true).
      { cbn [prefix] in Hocc.
        now destruct (ascii_dec ":"%char ":"%char); [|discriminate]. }
      apply colon_free_prefix in Htail.
      * cbn [prefix] in Hold.
        destruct (ascii_dec ":"%char ":"%char); [|contradiction].
        congruence.
      * intros [|[|[|[|[|j]]]]]; discriminate.
Qed.

(** X15: the default API base URL never contains [':3000'], so deriving
    the default again from it changes nothing (the port substitution is
    idempotent). *)
Theorem default_api_url_has_no_port_3000 (target : string) :
  let api := api_url (scanner_of target None) in
  contains ":3000" api = false /\
  (forall i, ~ occurs_at ":3000" api i) /\
  api_url (scanner_of api None) = api.
Proof.
  cbv zeta. cbn [api_url scanner_of py_or].
  assert (Hnone : forall i,
             ~ occurs_at ":3000" (replace ":3000" ":8080" target) i)
    by (intros i; apply replace_from_no_occurrence; lia).
  assert (Hcontains : contains ":3000" (replace ":3000" ":8080" target)
                      = false).
  { destruct (contains ":3000" (replace ":3000" ":8080" target)) eqn:E;
      [|reflexivity].
    apply contains_occurs in E as (i & Hi). now destruct (Hnone i). }
  split; [exact Hcontains|]. split; [exact Hnone|].
  now apply replace_absent.
Qed.

(** ** The API URL is not used *)

Lemma bind_cong {A B} (m m' : M A) (f f' : A -> M B) w s :
  m w s = m' w s ->
  (forall a w' s', f a w' s' = f' a w' s') ->
  bind m f w s = bind m' f' w s.
Proof.
  intros Hm Hf. unfold bind. rewrite Hm.
  destruct (m' w s) as [[[a|r|] s1] t1]; try reflexivity.
  now rewrite Hf.
Qed.

Lemma try_finally_cong {A} (body body' : M A) (fin fin' : M unit) w s :
  body w s = body' w s ->
  (forall w' s', fin w' s' = fin' w' s') ->
  try_finally body fin w s = try_finally body' fin' w s.
Proof.
  intros Hb Hf. unfold try_finally. rewrite Hb.
  destruct (body' w s) as [[[a|r|] s1] t1]; try reflexivity;
    now rewrite Hf.
Qed.

Section ApiUrl.
Variables (target : string) (api api' : string) (port : Z) (dir : string).
Local Notation "'with_api'" := (mkScanner target api port dir).
Local Notation "'with_api''" := (mkScanner target api' port dir).

Lemma poll_version_api attempts : forall w s,
  poll_version with_api attempts w s = poll_version with_api' attempts w s.
Proof.
  induction attempts as [|k IH]; intros w s; [reflexivity|].
  rewrite !poll_version_S. cbv zeta. now rewrite IH.
Qed.

Lemma start_zap_daemon_api w s :
  start_zap_daemon with_api w s = start_zap_daemon with_api' w s.
Proof. rewrite !start_zap_daemon_eq. now rewrite poll_version_api. Qed.

Lemma spider_wait_api scan_id fuel : forall w s,
  spider_wait with_api scan_id fuel w s = spider_wait with_api' scan_id fuel w s.
Proof.
  induction fuel as [|k IH]; intros w s; [reflexivity|].
  rewrite !spider_wait_S. cbv zeta. now rewrite IH.
Qed.

Lemma ascan_wait_api scan_id fuel : forall w s,
  ascan_wait with_api scan_id fuel w s = ascan_wait with_api' scan_id fuel w s.
Proof.
  induction fuel as [|k IH]; intros w s; [reflexivity|].
  rewrite !ascan_wait_S. cbv zeta. now rewrite IH.
Qed.

Lemma run_spider_scan_api fuel w s :
  run_spider_scan with_api fuel w s = run_spider_scan with_api' fuel w s.
Proof.
  rewrite !run_spider_scan_eq. cbv zeta.
  destruct (http w (requests_made s)) as [r|e]; [|reflexivity].
  destruct (response_item r "scan") as [e|scan_id]; [reflexivity|].
  now rewrite spider_wait_api.
Qed.

Lemma run_active_scan_api fuel w s :
  run_active_scan with_api fuel w s = run_active_scan with_api' fuel w s.
Proof.
  rewrite !run_active_scan_eq. cbv zeta.
  destruct (http w (requests_made s)) as [r|e]; [|reflexivity].
  destruct (response_item r "scan") as [e|scan_id]; [reflexivity|].
  now rewrite ascan_wait_api.
Qed.

Lemma scan_steps_api fuel w s : scan_steps with_api fuel w s = scan_steps with_api' fuel w s.
Proof.
  unfold scan_steps.
  apply bind_cong; [reflexivity|intros _ w1 s1].
  apply bind_cong; [reflexivity|intros _ w2 s2].
  apply bind_cong; [reflexivity|intros _ w3 s3].
  apply bind_cong; [apply run_spider_scan_api|intros _ w4 s4].
  apply bind_cong; [reflexivity|intros _ w5 s5].
  apply bind_cong; [apply run_active_scan_api|intros _ w6 s6].
  apply bind_cong; [reflexivity|intros _ w7 s7].
  apply bind_cong; [reflexivity|intros results w8 s8].
  reflexivity.
Qed.

Lemma run_full_scan_api fuel w s :
  run_full_scan with_api fuel w s = run_full_scan with_api' fuel w s.
Proof.
  unfold run_full_scan.
  apply bind_cong; [reflexivity|intros _ w1 s1].
  apply bind_cong; [apply start_zap_daemon_api|intros started w2 s2].
  apply bind_cong; [reflexivity|intros _ w3 s3].
  apply try_finally_cong; [apply scan_steps_api | reflexivity].
Qed.
End ApiUrl.

(** X16: the [api_url] attribute is never read.  Two scanners that differ
    only in it run identically against any engine, and [main] called
    with an API URL (and any further arguments) does exactly what it does
    without: the same requests, prints, report and outcome. *)
Theorem api_url_has_no_effect (fuel : nat) (w : World) (s : State) :
  (forall a b,
     same_settings a b ->
     run_full_scan a fuel w s = run_full_scan b fuel w s) /\
  (forall prog target api rest,
     main (prog :: target :: api :: rest) fuel w s =
     main [prog; target] fuel w s).
Proof.
  split.
  - intros [t1 a1 p1 d1] [t2 a2 p2 d2] (Ht & Hp & Hd).
    simpl in Ht, Hp, Hd. subst. apply run_full_scan_api.
  - intros prog target api rest. rewrite !main_eq. cbv zeta.
    destruct (makedirs w); [reflexivity|].
    unfold scanner_of.
    now rewrite (run_full_scan_api target
                   (py_or (Some api) (replace ":3000" ":8080" target))
                   (py_or None (replace ":3000" ":8080" target))).
Qed.

(** X16, witness: the same run with and without an API URL. *)
Lemma api_url_has_no_effect_witness :
  run_full_scan (scanner_of "http://localhost:3000" (Some "http://api:9000"))
    2 (cooperative [alert_of "High" "XSS"]) initial_state =
  run_full_scan (scanner_of "http://localhost:3000" None)
    2 (cooperative [alert_of "High" "XSS"]) initial_state.
Proof.
  apply (api_url_has_no_effect 2 (cooperative [alert_of "High" "XSS"])
           initial_state).
  repeat split.
Defined.

(** ** Events of the methods, for any property of events *)

Section MethodEvents.
Variables (P : event -> Prop) (self : Scanner).
Hypothesis Pprint : forall msg, P (EvPrint msg).
Hypothesis Psleep : forall n, P (EvSleep n).

Lemma has_auth_emits :
  (forall out, P (EvGet (health_request self) out)) ->
  emits P (has_auth self).
Proof.
  intros Hget. unfold has_auth. apply emits_try_except.
  - apply emits_bind; [now apply emits_requests_get | intros r; apply emits_ret].
  - intros r h H. injection H as <-. apply emits_ret.
Qed.

Lemma configure_zap_emits :
  (forall out, P (EvGet (scope_request self) out)) ->
  (forall out, P (EvGet (health_request self) out)) ->
  emits P (configure_zap self).
Proof.
  intros Hscope Hhealth. unfold configure_zap.
  apply emits_bind; [now apply emits_requests_get | intros _].
  apply emits_bind; [now apply has_auth_emits | intros auth].
  apply emits_if; apply emits_ret.
Qed.

Lemma poll_version_emits attempts :
  (forall out, P (EvGet (request (version_url self) []) out)) ->
  emits P (poll_version self attempts).
Proof.
  intros Hget. induction attempts as [|k IH]; cbn [poll_version];
    [apply emits_ret|].
  apply emits_bind; [|intros ready; apply emits_if; [apply emits_ret | exact IH]].
  apply emits_try_except.
  - apply emits_bind; [now apply emits_requests_get | intros r; apply emits_ret].
  - intros r h H. destruct r as [[]|]; try discriminate.
    injection H as <-.
    apply emits_bind; [now apply emits_time_sleep | intros _; apply emits_ret].
Qed.

Lemma start_zap_daemon_emits :
  (forall err, P (EvPopen (cmd self) err)) ->
  (forall out, P (EvGet (request (version_url self) []) out)) ->
  emits P (start_zap_daemon self).
Proof.
  intros Hpopen Hget. unfold start_zap_daemon. apply emits_try_except.
  - apply emits_bind; [now apply emits_subprocess_Popen | intros _].
    now apply poll_version_emits.
  - intros r h H. destruct r as [e|]; [|discriminate]. injection H as <-.
    apply emits_bind; [now apply emits_print | intros _; apply emits_ret].
Qed.

Lemma spider_wait_emits scan_id fuel :
  (forall out,
     P (EvGet (request (spider_status_url self) [("scanId", scan_id)]) out)) ->
  emits P (spider_wait self scan_id fuel).
Proof.
  intros Hget. induction fuel as [|k IH]; cbn [spider_wait];
    [apply emits_diverge|].
  apply emits_bind; [now apply emits_requests_get | intros response].
  apply emits_bind; [apply emits_lift | intros status].
  apply emits_if; [apply emits_ret|].
  apply emits_bind; [now apply emits_time_sleep | intros _; exact IH].
Qed.

Lemma run_spider_scan_emits fuel :
  (forall out, P (EvGet (spider_scan_request self) out)) ->
  (forall scan_id out,
     P (EvGet (request (spider_status_url self) [("scanId", scan_id)]) out)) ->
  emits P (run_spider_scan self fuel).
Proof.
  intros Hstart Hstatus. unfold run_spider_scan.
  apply emits_bind; [now apply emits_requests_get | intros response].
  apply emits_bind; [apply emits_lift | intros scan_id].
  apply emits_bind; [now apply spider_wait_emits | intros _; apply emits_ret].
Qed.
End MethodEvents.

(** ** Results only after the active scan *)

Section Latch.
Variables (trigger : event -> bool) (status_url : string).

Lemma completed_app c t1 t2 :
  completed status_url c (t1 ++ t2) =
  completed status_url (completed status_url c t1) t2.
Proof.
  revert c. induction t1 as [|ev t1 IH]; intros c; [reflexivity|].
  cbn [app completed]. apply IH.
Qed.

Lemma only_after_app c t1 t2 :
  only_after trigger status_url c (t1 ++ t2) =
  only_after trigger status_url c t1 &&
  only_after trigger status_url (completed status_url c t1) t2.
Proof.
  revert c. induction t1 as [|ev t1 IH]; intros c; [reflexivity|].
  cbn [app only_after completed]. rewrite IH. now rewrite andb_assoc.
Qed.

Lemma calm_trace c t :
  Forall (calm trigger status_url) t ->
  only_after trigger status_url c t = true /\ completed status_url c t = c.
Proof.
  induction 1 as [|ev t [Ht Hs] _ IH]; [now split|].
  cbn [only_after completed]. rewrite Ht, Hs. exact IH.
Qed.

Lemma after_calm {A} (m : M A) c :
  emits (calm trigger status_url) m -> after trigger status_url c c m.
Proof.
  intros Hm w s. destruct (Hm w s) as [Ht _].
  destruct (calm_trace c _ Ht) as [Hg Hd].
  split; [exact Hg | intros _ _; exact Hd].
Qed.

Lemma after_bind {A B} (m : M A) (f : A -> M B) c c1 c2 :
  after trigger status_url c c1 m ->
  (forall a, after trigger status_url c1 c2 (f a)) ->
  after trigger status_url c c2 (bind m f).
Proof.
  intros Hm Hf w s. destruct (Hm w s) as [Hg Hd].
  rewrite trace_bind, outcome_bind, only_after_app, completed_app, Hg.
  destruct (outcome (m w s)) as [a|r|]; cbn [andb].
  - rewrite (Hd a eq_refl). apply Hf.
  - split; [reflexivity | discriminate].
  - split; [reflexivity | discriminate].
Qed.

(** Once complete, anything may happen as long as the status is not asked
    for again. *)
Lemma after_complete {A} (m : M A) :
  emits (fun ev => is_get_to status_url ev = false) m ->
  after trigger status_url true true m.
Proof.
  intros Hm w s. destruct (Hm w s) as [Ht _].
  assert (H : only_after trigger status_url true (trace (m w s)) = true /\
              completed status_url true (trace (m w s)) = true).
  { induction Ht as [|ev t Hev _ IH]; [now split|].
    cbn [only_after completed]. rewrite Hev.
    destruct (trigger ev); exact IH. }
  split; [apply H | intros _ _; apply H].
Qed.

Lemma completed_split t : forall c,
  completed status_url c t = true ->
  (c = true /\ Forall (fun e => is_get_to status_url e = false) t) \/
  exists pre1 e pre2,
    t = pre1 ++ e :: pre2 /\
    answers_complete status_url e = true /\
    Forall (fun e' => is_get_to status_url e' = false) pre2.
Proof.
  induction t as [|ev t IH]; intros c H.
  - left. split; [exact H | constructor].
  - cbn [completed] in H.
    destruct (is_get_to status_url ev) eqn:Hstatus.
    + destruct (IH _ H) as [[Hobs Hall]|(pre1 & e & pre2 & -> & He & Hall)].
      * right. exists [], ev, t. auto.
      * right. exists (ev :: pre1), e, pre2. auto.
    + destruct (IH _ H) as [[Hc Hall]|(pre1 & e & pre2 & -> & He & Hall)].
      * left. split; [exact Hc | constructor; assumption].
      * right. exists (ev :: pre1), e, pre2. auto.
Qed.
End Latch.

Ltac calm_event :=
  unfold calm, uses_results, is_get_to, scope_request, health_request,
    spider_scan_request, ascan_scan_request, html_request, request;
  cbn [req_url];
  repeat match goal with
         | |- _ /\ _ => split
         | |- (_ || _)%bool = false => apply orb_false_intro
         end;
  try reflexivity; distinct_urls.

Section ResultsOrdering.
Variable self : Scanner.

Local Notation "'calm_now'" :=
  (calm (uses_results self) (ascan_status_url self)).
Local Notation "'results_after'" :=
  (after (uses_results self) (ascan_status_url self)).

Lemma print_after msg c : results_after c c (print msg).
Proof. apply after_calm, emits_print. now split. Qed.

Lemma lift_after {A} (x : exn + A) c : results_after c c (lift x).
Proof. apply after_calm, emits_lift. Qed.

Lemma ret_after {A} (x : A) c : results_after c c (ret x).
Proof. apply after_calm, emits_ret. Qed.

Lemma ascan_wait_after scan_id fuel : forall c,
  results_after c true (ascan_wait self scan_id fuel).
Proof.
  assert (Hnot : uses_results self
                   (EvGet (request (ascan_status_url self)
                             [("scanId", scan_id)])
                          (Fails ConnectionError)) = false)
    by (cbn [uses_results request req_url]; apply orb_false_intro;
        distinct_urls).
  cbn [uses_results request req_url] in Hnot.
  induction fuel as [|k IH]; intros c w s.
  - split; [reflexivity | discriminate].
  - rewrite ascan_wait_S. cbv zeta.
    destruct (http w (requests_made s)) as [r|e].
    2:{ cbn -[ascan_status_url alerts_url html_report_url].
        rewrite Hnot. split; [reflexivity | discriminate]. }
    destruct (response_item r "status") as [e|status] eqn:Hitem.
    { cbn -[ascan_status_url alerts_url html_report_url].
      rewrite Hnot. split; [reflexivity | discriminate]. }
    destruct (is_100 status) eqn:H100.
    + cbn -[response_item ascan_status_url alerts_url html_report_url].
      rewrite Hnot, String.eqb_refl, Hitem, H100. split; reflexivity.
    + destruct (IH false w (sent s)) as [Hg Hd].
      destruct (ascan_wait self scan_id k w (sent s)) as [[r' s'] t'].
      unfold trace, outcome in *.
      cbn -[response_item ascan_status_url alerts_url html_report_url] in *.
      rewrite Hnot, String.eqb_refl, Hitem, H100.
      cbn [andb]. split; [exact Hg | exact Hd].
Qed.

Lemma run_active_scan_after fuel c :
  results_after c true (run_active_scan self fuel).
Proof.
  unfold run_active_scan.
  eapply after_bind; [|intros response].
  { apply after_calm, emits_requests_get. intros out.
    change (calm_now (EvGet (ascan_scan_request self) out)). calm_event. }
  eapply after_bind; [apply lift_after | intros scan_id].
  eapply after_bind; [apply ascan_wait_after | intros _].
  apply ret_after.
Qed.

Lemma start_zap_daemon_calm : emits calm_now (start_zap_daemon self).
Proof.
  apply start_zap_daemon_emits; intros; try (now split); calm_event.
Qed.

Lemma configure_zap_calm : emits calm_now (configure_zap self).
Proof.
  apply configure_zap_emits; intros; try (now split); calm_event.
Qed.

Lemma run_spider_scan_calm fuel : emits calm_now (run_spider_scan self fuel).
Proof.
  apply run_spider_scan_emits; intros; try (now split); calm_event.
Qed.

Lemma no_status_of_talks urls :
  Forall (fun u => String.eqb u (ascan_status_url self) = false) urls ->
  forall ev, talks_to urls ev ->
             is_get_to (ascan_status_url self) ev = false.
Proof.
  intros Hurls [] H; try reflexivity. simpl in H |- *.
  rewrite Forall_forall in Hurls. auto.
Qed.

Lemma scan_steps_after fuel c : results_after c true (scan_steps self fuel).
Proof.
  unfold scan_steps.
  eapply after_bind; [apply print_after | intros _].
  eapply after_bind; [apply after_calm, configure_zap_calm | intros _].
  eapply after_bind; [apply print_after | intros _].
  eapply after_bind; [apply after_calm, run_spider_scan_calm | intros _].
  eapply after_bind; [apply print_after | intros _].
  eapply after_bind; [apply run_active_scan_after | intros _].
  eapply after_bind; [apply print_after | intros _].
  eapply after_bind; [|intros results].
  - apply after_complete.
    eapply emits_weaken; [|apply get_scan_results_talks].
    apply no_status_of_talks. constructor; [distinct_urls | constructor].
  - apply after_complete.
    eapply emits_weaken; [|apply generate_report_talks].
    apply no_status_of_talks. constructor; [distinct_urls | constructor].
Qed.

Lemma shutdown_calm w s : Forall calm_now (trace (shutdown self w s)).
Proof.
  rewrite shutdown_run. cbn [trace snd].
  destruct (has_zap_process s); repeat constructor.
Qed.

(** No run of [run_full_scan] uses the results before the active scan is
    complete. *)
Lemma run_full_scan_only_after fuel w s :
  only_after (uses_results self) (ascan_status_url self) false
    (trace (run_full_scan self fuel w s)) = true.
Proof.
  rewrite run_full_scan_eq. cbv zeta.
  destruct (start_zap_daemon_calm w s) as [Hstart _].
  destruct (start_zap_daemon self w s) as [[[[|]|r|] s1] t1];
    cbn [trace snd] in Hstart;
    destruct (calm_trace (uses_results self) (ascan_status_url self)
                false _ Hstart) as [Hg1 Hd1].
  - pose proof (trace_try_finally (scan_steps self fuel) (shutdown self) w s1)
      as Htr.
    destruct (scan_steps_after fuel false w s1) as [Hg _].
    destruct (try_finally (scan_steps self fuel) (shutdown self) w s1)
      as [[r s2] t2].
    cbn [trace snd] in Htr |- *. subst t2.
    cbn [only_after uses_results completed is_get_to andb].
    rewrite !only_after_app, Hg1, Hd1, Hg. cbn [andb].
    destruct (outcome (scan_steps self fuel w s1));
      [apply calm_trace, shutdown_calm
      |apply calm_trace, shutdown_calm
      |reflexivity].
  - cbn [trace snd only_after uses_results completed is_get_to andb].
    rewrite !only_after_app, Hg1, Hd1. reflexivity.
  - cbn [trace snd only_after uses_results completed is_get_to andb].
    exact Hg1.
  - cbn [trace snd only_after uses_results completed is_get_to andb].
    exact Hg1.
Qed.
End ResultsOrdering.

(** X17: in every run, finished or not, the results are used only after
    the active scan is complete: a request for the alerts, a write of the
    report and a request for the HTML report are each preceded by an
    answer to an active-scan status request that reported ['100'], with
    no active-scan status request in between. *)
Theorem results_after_active_scan (self : Scanner) (fuel : nat) (w : World)
    (s : State) (pre : list event) (ev : event) (post : list event) :
  trace (run_full_scan self fuel w s) = pre ++ ev :: post ->
  uses_results self ev = true ->
  exists pre1 e pre2,
    pre = pre1 ++ e :: pre2 /\
    answers_complete (ascan_status_url self) e = true /\
    Forall (fun e' => is_get_to (ascan_status_url self) e' = false) pre2.
Proof.
  intros Htrace Hev.
  pose proof (run_full_scan_only_after self fuel w s) as Hg.
  rewrite Htrace, only_after_app in Hg.
  apply andb_prop in Hg as [_ Hg].
  cbn [only_after] in Hg. rewrite Hev in Hg.
  apply andb_prop in Hg as [Hc _].
  destruct (completed_split (ascan_status_url self) pre false Hc)
    as [[Hf _]|H]; [discriminate | exact H].
Qed.

(** X17, witness: the run against a cooperative engine, cut at the
    request for the alerts. *)
Lemma results_after_active_scan_witness :
  exists pre1 e pre2,
    firstn 13 (trace (run_full_scan scanner0 1 (cooperative []) initial_state))
      = pre1 ++ e :: pre2 /\
    answers_complete (ascan_status_url scanner0) e = true /\
    Forall (fun e' => is_get_to (ascan_status_url scanner0) e' = false) pre2.
Proof.
  apply (results_after_active_scan scanner0 1 (cooperative []) initial_state
           (firstn 13 (trace (run_full_scan scanner0 1 (cooperative [])
                                initial_state)))
           (nth 13 (trace (run_full_scan scanner0 1 (cooperative [])
                             initial_state)) EvWait)
           (skipn 14 (trace (run_full_scan scanner0 1 (cooperative [])
                               initial_state)))).
  - vm_compute. reflexivity.
  - vm_compute. reflexivity.
Defined.

(** ** Exit codes *)

Lemma no_exit_ret {A} (a : A) : no_exit (ret a).
Proof. intros w s code. discriminate. Qed.

Lemma no_exit_lift {A} (x : exn + A) : no_exit (lift x).
Proof. intros w s code. destruct x; discriminate. Qed.

Lemma no_exit_emit ev : no_exit (emit ev).
Proof. intros w s code. discriminate. Qed.

Lemma no_exit_diverge {A} : no_exit (@diverge A).
Proof. intros w s code. discriminate. Qed.

Lemma no_exit_requests_get req : no_exit (requests_get req).
Proof.
  intros w s code. unfold requests_get.
  destruct (http w (requests_made s)); discriminate.
Qed.

Lemma no_exit_write_json path report : no_exit (write_json path report).
Proof.
  intros w s code. unfold write_json. destruct (file_write w); discriminate.
Qed.

Lemma no_exit_bind {A B} (m : M A) (f : A -> M B) :
  no_exit m -> (forall a, no_exit (f a)) -> no_exit (bind m f).
Proof.
  intros Hm Hf w s code. rewrite outcome_bind.
  specialize (Hm w s code).
  destruct (outcome (m w s)) as [a|r|]; [apply Hf | | discriminate].
  intros H. apply Hm. now injection H as ->.
Qed.

Lemma no_exit_if {A} (b : bool) (m1 m2 : M A) :
  no_exit m1 -> no_exit m2 -> no_exit (if b then m1 else m2).
Proof. now destruct b. Qed.

Ltac no_exit_rules :=
  repeat first
    [ apply no_exit_ret | apply no_exit_lift | apply no_exit_diverge
    | apply no_exit_requests_get | apply no_exit_write_json
    | apply no_exit_emit
    | apply no_exit_if
    | apply no_exit_bind; [|intro] ].

Lemma no_exit_has_auth self : no_exit (has_auth self).
Proof. intros w s code. rewrite has_auth_run. discriminate. Qed.

Lemma no_exit_spider_wait self scan_id fuel :
  no_exit (spider_wait self scan_id fuel).
Proof.
  induction fuel as [|k IH]; cbn [spider_wait]; [apply no_exit_diverge|].
  apply no_exit_bind; [apply no_exit_requests_get | intros response].
  apply no_exit_bind; [apply no_exit_lift | intros status].
  apply no_exit_if; [apply no_exit_ret|].
  apply no_exit_bind; [apply no_exit_emit | intros _; exact IH].
Qed.

Lemma no_exit_ascan_wait self scan_id fuel :
  no_exit (ascan_wait self scan_id fuel).
Proof.
  induction fuel as [|k IH]; cbn [ascan_wait]; [apply no_exit_diverge|].
  apply no_exit_bind; [apply no_exit_requests_get | intros response].
  apply no_exit_bind; [apply no_exit_lift | intros status].
  apply no_exit_if; [apply no_exit_ret|].
  apply no_exit_bind; [apply no_exit_emit | intros _].
  apply no_exit_bind; [apply no_exit_emit | intros _; exact IH].
Qed.

Lemma no_exit_print_counts risk_counts : no_exit (print_counts risk_counts).
Proof. intros w s code. rewrite print_counts_trace. discriminate. Qed.

(** No scan step calls [sys.exit]. *)
Lemma no_exit_scan_steps self fuel : no_exit (scan_steps self fuel).
Proof.
  unfold scan_steps.
  apply no_exit_bind; [apply no_exit_emit | intros _].
  apply no_exit_bind; [|intros _].
  { unfold configure_zap.
    apply no_exit_bind; [apply no_exit_requests_get | intros _].
    apply no_exit_bind; [apply no_exit_has_auth | intros auth].
    apply no_exit_if; apply no_exit_ret. }
  apply no_exit_bind; [apply no_exit_emit | intros _].
  apply no_exit_bind; [|intros _].
  { unfold run_spider_scan.
    apply no_exit_bind; [apply no_exit_requests_get | intros response].
    apply no_exit_bind; [apply no_exit_lift | intros scan_id].
    apply no_exit_bind; [apply no_exit_spider_wait | intros _].
    apply no_exit_ret. }
  apply no_exit_bind; [apply no_exit_emit | intros _].
  apply no_exit_bind; [|intros _].
  { unfold run_active_scan.
    apply no_exit_bind; [apply no_exit_requests_get | intros response].
    apply no_exit_bind; [apply no_exit_lift | intros scan_id].
    apply no_exit_bind; [apply no_exit_ascan_wait | intros _].
    apply no_exit_ret. }
  apply no_exit_bind; [apply no_exit_emit | intros _].
  apply no_exit_bind; [|intros results].
  { unfold get_scan_results.
    apply no_exit_bind; [apply no_exit_requests_get | intros response].
    apply no_exit_lift. }
  unfold generate_report.
  apply no_exit_bind; [intros w s code; discriminate | intros now].
  apply no_exit_bind; [apply no_exit_lift | intros report].
  apply no_exit_bind; [apply no_exit_write_json | intros _].
  apply no_exit_bind; [apply no_exit_requests_get | intros _].
  apply no_exit_bind; [apply no_exit_emit | intros _].
  apply no_exit_print_counts.
Qed.

(** How [run_full_scan] can end. *)
Lemma run_full_scan_outcome self fuel w s :
  outcome (run_full_scan self fuel w s) = Ret tt \/
  outcome (run_full_scan self fuel w s) = Exc (SystemExit 1) \/
  (exists e, outcome (run_full_scan self fuel w s) = Exc (Error e)) \/
  outcome (run_full_scan self fuel w s) = Diverge.
Proof.
  rewrite run_full_scan_eq. cbv zeta.
  destruct (start_zap_daemon_returns self w s) as (b & Hb).
  destruct (start_zap_daemon self w s) as [[r s1] t1].
  unfold outcome in Hb. cbn [fst] in Hb. subst r.
  destruct b; [|right; left; reflexivity].
  pose proof (outcome_try_finally (scan_steps self fuel) (shutdown self) w s1)
    as Hout.
  rewrite shutdown_run in Hout.
  pose proof (no_exit_scan_steps self fuel w s1) as Hno.
  destruct (try_finally (scan_steps self fuel) (shutdown self) w s1)
    as [[r s2] t2].
  unfold outcome in *. cbn [fst snd] in *. rewrite Hout.
  destruct (fst (fst (scan_steps self fuel w s1))) as [[]|[e|code]|].
  - now left.
  - right. right. left. now exists e.
  - now destruct (Hno code).
  - now right; right; right.
Qed.

(** X18: the process exits with code 0 exactly when [main] returns, and
    with code 1 whenever it ends otherwise: on a missing argument, when
    the results directory cannot be created, when the engine does not
    start, and on any exception of a scan step.  No other exit code
    occurs. *)
Theorem exit_code_is_zero_or_one (argv : list string) (fuel : nat) (w : World)
    (s : State) :
  let x := main argv fuel w s in
  (exit_code (outcome x) = Some 0 <-> outcome x = Ret tt) /\
  (outcome x <> Ret tt -> outcome x <> Diverge ->
   exit_code (outcome x) = Some 1) /\
  ((length argv < 2)%nat -> exit_code (outcome x) = Some 1).
Proof.
  cbv zeta.
  assert (Hcases :
            outcome (main argv fuel w s) = Ret tt \/
            outcome (main argv fuel w s) = Exc (SystemExit 1) \/
            (exists e, outcome (main argv fuel w s) = Exc (Error e)) \/
            outcome (main argv fuel w s) = Diverge).
  { destruct argv as [|prog [|target rest]];
      [right; left; reflexivity | right; left; reflexivity |].
    rewrite main_eq. cbv zeta.
    destruct (makedirs w) as [e|];
      [right; right; left; now exists e|].
    pose proof (run_full_scan_outcome
                  (scanner_of target
                     match rest with [] => None | a :: _ => Some a end)
                  fuel w s) as H.
    destruct (run_full_scan _ fuel w s) as [[r s'] t]. exact H. }
  split; [|split].
  - destruct Hcases as [ -> | [ -> | [ (e & ->) | -> ] ] ]; cbn;
      split; congruence.
  - intros Hret Hend.
    destruct Hcases as [ H | [ -> | [ (e & ->) | H ] ] ];
      try reflexivity; contradiction.
  - intros Hlen.
    destruct argv as [|prog [|target rest]]; try reflexivity.
    simpl in Hlen. lia.
Qed.

(** X18, witness: [main] without a target URL. *)
Lemma exit_code_is_zero_or_one_witness :
  exit_code (outcome (main ["zap-baseline-scan.py"] 3 unreachable
                        initial_state)) = Some 1.
Proof.
  apply (exit_code_is_zero_or_one ["zap-baseline-scan.py"] 3 unreachable
           initial_state).
  simpl. lia.
Defined.

(** ** A run that completes *)


















(** ** Severities that are present but not usable *)

Lemma severity_error_risk_key risk rc e :
  keys rc = severities ->
  severity_error risk = Some e ->
  risk_key risk rc = inl e.
Proof.
  intros Hkeys. unfold severity_error, risk_key.
  destruct risk as [| | |sev| |]; try (now intros H; injection H as <-).
  destruct (existsb (String.eqb sev) severities) eqn:Hex; [discriminate|].
  intros H. injection H as <-.
  destruct (lookup sev rc) eqn:Hl; [|reflexivity].
  exfalso.
  assert (Hin : In sev (keys rc)) by (apply lookup_in_keys; congruence).
  rewrite Hkeys in Hin.
  assert (Htrue : existsb (String.eqb sev) severities = true)
    by (apply existsb_exists; exists sev; split;
        [exact Hin | apply String.eqb_refl]).
  congruence.
Qed.

(** X20: the default ['Informational'] applies only to a finding without
    a ['risk'] key.  A finding whose ['risk'] is present but is null, a
    boolean, a number or a string outside the four levels raises
    [KeyError], and a list or object raises [TypeError], wherever the
    finding stands among well-formed ones; the report is not written and
    nothing is requested. *)
Theorem unusable_severity_aborts_report (self : Scanner)
    (rfields fields : list (string * json)) (pre post : list json)
    (risk : json) (e : exn) (w : World) (s : State) :
  lookup "alerts" rfields = Some (JArr (pre ++ JObj fields :: post)) ->
  Forall recognised pre ->
  lookup "risk" fields = Some risk ->
  severity_error risk = Some e ->
  generate_report self (JObj rfields) w s = (Exc (Error e), s, []).
Proof.
  intros Halerts Hpre Hrisk Herr. apply generate_report_raises.
  unfold make_report, py_get. rewrite Halerts. cbn [py_iter].
  rewrite categorize_app.
  destruct (categorize_recognised pre risk_counts0 detailed_findings0
              (incl_refl _) Hpre) as ([rc df] & Hcat).
  rewrite Hcat.
  pose proof (categorize_inr _ _ _ _ _ Hcat) as (_ & Hkeys & _).
  cbn [categorize]. unfold categorize_alert, field. rewrite Hrisk.
  now rewrite (severity_error_risk_key risk rc e Hkeys Herr).
Qed.

(** X20, witness: a finding with a null severity after a well-formed
    one. *)
Lemma unusable_severity_aborts_report_witness :
  generate_report scanner0
    (JObj [("alerts", JArr [alert_of "Low" "a";
                            JObj [("alert", JStr "b"); ("risk", JNull)];
                            alert_of "High" "c"])])
    (cooperative []) initial_state =
  (Exc (Error KeyError), initial_state, []).
Proof.
  apply (unusable_severity_aborts_report scanner0
           [("alerts", JArr [alert_of "Low" "a";
                             JObj [("alert", JStr "b"); ("risk", JNull)];
                             alert_of "High" "c"])]
           [("alert", JStr "b"); ("risk", JNull)]
           [alert_of "Low" "a"] [alert_of "High" "c"] JNull KeyError);
    try reflexivity.
  constructor; [simpl; tauto | constructor].
Defined.

(** ** When the engine cannot be spawned *)

(** X21: when the engine process cannot be spawned, the run sends no
    request at all: it prints the failure of the spawn and "Failed to
    start ZAP daemon" and leaves with [sys.exit(1)]; no process exists,
    so there is nothing to stop. *)
Theorem spawn_failure_ends_run (self : Scanner) (fuel : nat) (w : World)
    (s : State) (e : exn) :
  popen w = Some e ->
  run_full_scan self fuel w s =
  (Exc (SystemExit 1), s,
   [EvPrint [Lit "Starting security scan for "; Lit (target_url self)];
    EvPopen (cmd self) (Some e);
    EvPrint [Lit "Failed to start ZAP: "; FmtExn e];
    EvPrint [Lit "Failed to start ZAP daemon"]]).
Proof.
  intros Hpopen. rewrite run_full_scan_eq. cbv zeta.
  now rewrite start_zap_daemon_eq, Hpopen.
Qed.

(** X21, witness: [zap.sh] is not installed. *)
Lemma spawn_failure_ends_run_witness :
  run_full_scan scanner0 4 not_installed initial_state =
  (Exc (SystemExit 1), initial_state,
   [EvPrint [Lit "Starting security scan for "; Lit (target_url scanner0)];
    EvPopen (cmd scanner0) (Some OSError);
    EvPrint [Lit "Failed to start ZAP: "; FmtExn OSError];
    EvPrint [Lit "Failed to start ZAP daemon"]]).
Proof.
  apply (spawn_failure_ends_run scanner0 4 not_installed initial_state
           OSError).
  reflexivity.
Defined.
